(** * Crazy Eights (Q-8): the game engine of [src/utils/deck.ts] and [src/App.tsx]

    A shallow embedding of the card model, the deck factory, the legality
    predicate and the state transitions of the React component, with the
    properties of the specification proved about them. *)

From Stdlib Require Import String Ascii List Arith ZArith NArith Lia Permutation.
From stdpp Require Import base list strings.
Import ListNotations.

Local Open Scope string_scope.
Local Open Scope nat_scope.
Local Open Scope list_scope.

(** ** Card model ([types.ts], as used by [deck.ts]) *)

Inductive Suit := hearts | diamonds | clubs | spades.

Inductive Rank := RA | R2 | R3 | R4 | R5 | R6 | R7 | R8 | R9 | R10 | RJ | RQ | RK.

#[global] Instance Suit_eq_dec : EqDecision Suit.
Proof. solve_decision. Defined.

#[global] Instance Rank_eq_dec : EqDecision Rank.
Proof. solve_decision. Defined.

(** The string literal behind each enumeration value. *)
Definition suit_str (s : Suit) : string :=
  match s with
  | hearts => "hearts" | diamonds => "diamonds" | clubs => "clubs" | spades => "spades"
  end.

Definition rank_str (r : Rank) : string :=
  match r with
  | RA => "A" | R2 => "2" | R3 => "3" | R4 => "4" | R5 => "5" | R6 => "6" | R7 => "7"
  | R8 => "8" | R9 => "9" | R10 => "10" | RJ => "J" | RQ => "Q" | RK => "K"
  end.

Record Card := { id : string; suit : Suit; rank : Rank }.

#[global] Instance Card_eq_dec : EqDecision Card.
Proof. solve_decision. Defined.

Definition SUITS : list Suit := [hearts; diamonds; clubs; spades].
Definition RANKS : list Rank := [RA; R2; R3; R4; R5; R6; R7; R8; R9; R10; RJ; RQ; RK].

(** ** The random source

    [Math.random()] returns a double that is at least 0 and less than 1.
    Those doubles are the numbers [m / 2^(53 + e)] with [m] below [2^53]
    and [e] at most 1021: from one half on [e] is 0 and [m] at least
    [2^52], and the subnormal numbers have [e = 1021].  A sample gives
    [m] and [e], taken into these ranges by [significand] and [scale],
    and the text that [toString(36)] prints for the number: for a radix
    other than 10 the language leaves the digits printed to the
    implementation, so they are part of what a call returns.  The source
    of randomness is the sequence of the samples that the successive
    calls return. *)

Record Sample := { mant : N; expo : N; text36 : string }.

Definition significand (x : Sample) : N := (mant x mod 2 ^ 53)%N.

(** The sample is [significand x / 2 ^ scale x]. *)
Definition scale (x : Sample) : N := (53 + N.min (expo x) 1021)%N.

Definition Rng := nat -> Sample.

(** Computations that call [Math.random()] thread the source through. *)
Definition M (A : Type) : Type := Rng -> A * Rng.

Definition ret {A} (a : A) : M A := fun g => (a, g).

Definition bind {A B} (m : M A) (k : A -> M B) : M B :=
  fun g => let (a, g') := m g in k a g'.

Notation "'let*' x ':=' c1 'in' c2" := (bind c1 (fun x => c2))
  (at level 10, x name, c1 at level 100, c2 at level 200).

Definition random : M Sample := fun g => (g 0, fun n => g (S n)).

(** The double nearest to the whole number [n], ties going to the even
    neighbour: [n] keeps its 53 leading binary digits. *)
Definition round53 (n : N) : N :=
  let digits := N.size n in
  if (digits <=? 53)%N then n
  else
    let s := (digits - 53)%N in
    let q := (n / 2 ^ s)%N in
    let r := (n mod 2 ^ s)%N in
    let half := (2 ^ (s - 1))%N in
    if (half <? r)%N || ((r =? half)%N && N.odd q) then ((q + 1) * 2 ^ s)%N
    else (q * 2 ^ s)%N.

(** [Math.floor(x * k)] for a sample [x] and a whole number [k], which is
    below [2^53] as every array length is.  The product of the two doubles
    is [significand x * k / 2 ^ scale x] rounded to the nearest double;
    the division by a power of two is exact, so that rounding the product
    is rounding its numerator.  The floor is taken of the rounded
    product. *)
Definition floor_mul (x : Sample) (k : nat) : nat :=
  N.to_nat (round53 (significand x * N.of_nat k) / 2 ^ scale x).

(** [x.toString(36).substr(2, 9)]: up to nine characters of the text,
    from the third on. *)
Definition token (x : Sample) : string := substring 2 9 (text36 x).

(** ** Deck factory ([deck.ts]) *)

(** The template literal [`${rank}-${suit}-${token}`]. *)
Definition mkId (r : Rank) (s : Suit) (tok : string) : string :=
  rank_str r +:+ "-" +:+ suit_str s +:+ "-" +:+ tok.

(** A [for (const x of xs)] loop whose body updates an accumulator. *)
Fixpoint for_of {A B} (xs : list A) (body : B -> A -> M B) (acc : B) : M B :=
  match xs with
  | [] => ret acc
  | x :: xs' => let* acc' := body acc x in for_of xs' body acc'
  end.

(** [[a[i], a[j]] = [a[j], a[i]]]: the right-hand side is read first, then
    [a[i]] and [a[j]] are written in that order.  Both indices are inside
    the array at every call of [shuffle]. *)
Definition swap (a : list Card) (i j : nat) : list Card :=
  match a !! i, a !! j with
  | Some ai, Some aj => <[j := ai]> (<[i := aj]> a)
  | _, _ => a
  end.

(** The loop [for (let i = ...; i > 0; i--)] of [shuffle], entered at [i]. *)
Fixpoint shuffle_loop (i : nat) (newDeck : list Card) : M (list Card) :=
  match i with
  | 0 => ret newDeck
  | S i' =>
      let* x := random in
      let j := floor_mul x (i + 1) in
      shuffle_loop i' (swap newDeck i j)
  end.

Definition shuffle (deck : list Card) : M (list Card) :=
  let newDeck := deck in
  shuffle_loop (length newDeck - 1) newDeck.

Definition newCard (s : Suit) (r : Rank) : M Card :=
  let* x := random in
  ret {| id := mkId r s (token x); suit := s; rank := r |}.

(** The two nested loops of [createDeck], before the shuffle. *)
Definition orderedDeck : M (list Card) :=
  for_of SUITS (fun deck s =>
    for_of RANKS (fun deck r =>
      let* c := newCard s r in ret (deck ++ [c])) deck) [].

Definition createDeck : M (list Card) :=
  let* deck := orderedDeck in shuffle deck.

(** ** Legal move evaluator ([deck.ts]) *)

Definition canPlay (card : option Card) (topCard : option Card)
    (currentSuit : option Suit) : bool :=
  match card with
  | None => false
  | Some c =>
      if bool_decide (rank c = R8) then true
      else match topCard with
           | None => true
           | Some t =>
               let targetSuit := default (suit t) currentSuit in
               bool_decide (suit c = targetSuit) || bool_decide (rank c = rank t)
           end
  end.

(** ** Game state ([types.ts], as used by [App.tsx]) *)

Inductive Player := player | ai.

Inductive GameStatus := menu | waiting | playing | suit_selection | game_over.

#[global] Instance Player_eq_dec : EqDecision Player.
Proof. solve_decision. Defined.

#[global] Instance GameStatus_eq_dec : EqDecision GameStatus.
Proof. solve_decision. Defined.

Record GameState := {
  deck : list Card;
  playerHand : list Card;
  aiHand : list Card;
  discardPile : list Card;
  currentSuit : option Suit;
  turn : Player;
  status : GameStatus;
  winner : option Player;
  lastAction : string
}.

(** ** Array operations of the source *)

(** [a[a.length - 1]]: [None] is [undefined], read past an empty array. *)
Definition top (a : list Card) : option Card := last a.

(** [a.slice(0, -1)]. *)
Definition slice_0_m1 (a : list Card) : list Card := take (length a - 1) a.

(** [a.pop()]: the element removed and the array that is left. *)
Definition pop (a : list Card) : option Card * list Card :=
  (last a, take (length a - 1) a).

(** [a.splice(start, count)]: the elements removed and the array that is left. *)
Definition splice (a : list Card) (start count : nat) : list Card * list Card :=
  (take count (drop start a), take start a ++ drop (start + count) a).

(** [a.findIndex(p)], which is [-1] when no element satisfies [p]. *)
Fixpoint findIndex_from (p : Card -> bool) (a : list Card) (i : Z) : Z :=
  match a with
  | [] => (-1)%Z
  | x :: a' => if p x then i else findIndex_from p a' (i + 1)%Z
  end.

Definition findIndex (p : Card -> bool) (a : list Card) : Z := findIndex_from p a 0%Z.

(** ** Starting a game ([initGame]) *)

(** The body of [initGame] once [createDeck()] has returned [fullDeck].
    [[fullDeck.splice(i, 1)[0]]] holds one card whenever cards remain after
    the two hands, which is so for every deck of [createDeck]. *)
Definition deal (fullDeck : list Card) : GameState :=
  let '(playerHand, fullDeck) := splice fullDeck 0 8 in
  let '(aiHand, fullDeck) := splice fullDeck 0 8 in
  let firstCardIndex := findIndex (fun c => negb (bool_decide (rank c = R8))) fullDeck in
  let firstCardIndex := if (firstCardIndex =? -1)%Z then 0%Z else firstCardIndex in
  let '(removed, fullDeck) := splice fullDeck (Z.to_nat firstCardIndex) 1 in
  let discardPile := match removed !! 0 with Some c => [c] | None => [] end in
  {| deck := fullDeck;
     playerHand := playerHand;
     aiHand := aiHand;
     discardPile := discardPile;
     currentSuit := None;
     turn := player;
     status := playing;
     winner := None;
     lastAction := "游戏开始！轮到你了。" |}.

Definition initGame : M GameState :=
  let* fullDeck := createDeck in ret (deal fullDeck).

(** ** Reshuffle ([reshuffleIfNeeded], the state updater) *)

Definition reshuffleIfNeeded (prev : GameState) : M GameState :=
  if (2 <? length (deck prev))%nat || (length (discardPile prev) <=? 1)%nat then ret prev
  else
    match top (discardPile prev) with
    | None => ret prev
    | Some topCard =>
        let restOfDiscard := slice_0_m1 (discardPile prev) in
        let* newDeck := shuffle (deck prev ++ restOfDiscard) in
        ret {| deck := newDeck;
               playerHand := playerHand prev;
               aiHand := aiHand prev;
               discardPile := [topCard];
               currentSuit := currentSuit prev;
               turn := turn prev;
               status := status prev;
               winner := winner prev;
               lastAction := "摸牌堆已耗尽，弃牌堆已重新洗牌。" |}
    end.

(** ** Winner check (the effect on the hand sizes and the status) *)

Definition checkWinner (state : GameState) : GameState :=
  if bool_decide (status state = playing) then
    if (length (playerHand state) =? 0)%nat then
      {| deck := deck state; playerHand := playerHand state; aiHand := aiHand state;
         discardPile := discardPile state; currentSuit := currentSuit state;
         turn := turn state;
         status := game_over; winner := Some player; lastAction := "你赢了！" |}
    else if (length (aiHand state) =? 0)%nat then
      {| deck := deck state; playerHand := playerHand state; aiHand := aiHand state;
         discardPile := discardPile state; currentSuit := currentSuit state;
         turn := turn state;
         status := game_over; winner := Some ai; lastAction := "AI 赢了！" |}
    else state
  else state.

(** ** Playing and drawing ([playCard], [drawCard]) *)

Definition getSuitName (s : Suit) : string :=
  match s with
  | hearts => "红心" | diamonds => "方块" | clubs => "梅花" | spades => "黑桃"
  end.

Definition who (isPlayer : bool) : string := if isPlayer then "你" else "AI".

Definition playCard (card : Card) (p : Player) (chosenSuit : option Suit)
    (prev : GameState) : GameState :=
  let isPlayer := bool_decide (p = player) in
  let hand := if isPlayer then playerHand prev else aiHand prev in
  let newHand := filter (fun c => id c <> id card) hand in
  {| deck := deck prev;
     playerHand := if isPlayer then newHand else playerHand prev;
     aiHand := if isPlayer then aiHand prev else newHand;
     discardPile := discardPile prev ++ [card];
     currentSuit := chosenSuit;
     turn := if isPlayer then ai else player;
     status := status prev;
     winner := winner prev;
     lastAction :=
       who isPlayer +:+ " 打出了 " +:+ getSuitName (suit card) +:+ " " +:+ rank_str (rank card)
       +:+ match chosenSuit with
           | Some s => "。新花色：" +:+ getSuitName s
           | None => ""
           end |}.

(** The state updater of [drawCard]. *)
Definition drawCard_update (p : Player) (prev : GameState) : GameState :=
  if (length (deck prev) =? 0)%nat then prev
  else
    match pop (deck prev) with
    | (None, _) => prev
    | (Some drawnCard, newDeck) =>
        let isPlayer := bool_decide (p = player) in
        let hand := if isPlayer then playerHand prev else aiHand prev in
        let topCard := top (discardPile prev) in
        let canPlayDrawn := canPlay (Some drawnCard) topCard (currentSuit prev) in
        {| deck := newDeck;
           playerHand := if isPlayer then hand ++ [drawnCard] else playerHand prev;
           aiHand := if isPlayer then aiHand prev else hand ++ [drawnCard];
           discardPile := discardPile prev;
           currentSuit := currentSuit prev;
           turn := if isPlayer then (if canPlayDrawn then player else ai)
                   else (if canPlayDrawn then ai else player);
           status := status prev;
           winner := winner prev;
           lastAction := who isPlayer +:+ " 摸了一张牌。" |}
    end.

(** [drawCard(player)]: the update, then [reshuffleIfNeeded()]. *)
Definition drawCard (p : Player) (prev : GameState) : M GameState :=
  reshuffleIfNeeded (drawCard_update p prev).

(** ** The automated player's turn (the timer callback of the turn effect) *)

(** [suitCounts]: an object with the four suits as keys, in this order. *)
Definition suitCounts0 : list (Suit * nat) :=
  [(hearts, 0); (diamonds, 0); (clubs, 0); (spades, 0)].

(** [suitCounts[s]++]. *)
Definition incr (s : Suit) (counts : list (Suit * nat)) : list (Suit * nat) :=
  map (fun kv => if bool_decide (fst kv = s) then (fst kv, S (snd kv)) else kv) counts.

(** [suitCounts[s]]. *)
Definition getCount (counts : list (Suit * nat)) (s : Suit) : nat :=
  match find (fun kv => bool_decide (fst kv = s)) counts with
  | Some kv => snd kv
  | None => 0
  end.

(** The [forEach] that counts the suits of the hand, the played card apart. *)
Definition countSuits (hand : list Card) (cardToPlay : Card) : list (Suit * nat) :=
  fold_left
    (fun counts c => if bool_decide (id c <> id cardToPlay) then incr (suit c) counts else counts)
    hand suitCounts0.

(** [Object.keys(suitCounts).reduce((a, b) => suitCounts[a] > suitCounts[b] ? a : b)];
    without an initial value [reduce] starts from the first key. *)
Definition bestSuitOf (suitCounts : list (Suit * nat)) : Suit :=
  match map fst suitCounts with
  | [] => hearts
  | k :: keys =>
      fold_left
        (fun a b => if (getCount suitCounts b <? getCount suitCounts a)%nat then a else b)
        keys k
  end.

Definition playableCards (hand : list Card) (topCard : Card) (cs : option Suit) : list Card :=
  filter (fun card => canPlay (Some card) (Some topCard) cs = true) hand.

(** [nonEight || playableCards[0]]. *)
Definition cardToPlayOf (playable : list Card) : option Card :=
  match find (fun c => negb (bool_decide (rank c = R8))) playable with
  | Some nonEight => Some nonEight
  | None => playable !! 0
  end.

Definition aiTurn_update (current : GameState) : GameState :=
  if negb (bool_decide (status current = playing)) || negb (bool_decide (turn current = ai))
  then current
  else
    match top (discardPile current) with
    | None => current
    | Some topCard =>
        let playable := playableCards (aiHand current) topCard (currentSuit current) in
        if (0 <? length playable)%nat then
          match cardToPlayOf playable with
          | None => current
          | Some cardToPlay =>
              let newHand := filter (fun c => id c <> id cardToPlay) (aiHand current) in
              if bool_decide (rank cardToPlay = R8) then
                let suitCounts := countSuits (aiHand current) cardToPlay in
                let bestSuit := bestSuitOf suitCounts in
                {| deck := deck current;
                   playerHand := playerHand current;
                   aiHand := newHand;
                   discardPile := discardPile current ++ [cardToPlay];
                   currentSuit := Some bestSuit;
                   turn := player;
                   status := status current;
                   winner := winner current;
                   lastAction :=
                     "AI 打出了 " +:+ getSuitName (suit cardToPlay) +:+ " 8。新花色："
                     +:+ getSuitName bestSuit |}
              else
                {| deck := deck current;
                   playerHand := playerHand current;
                   aiHand := newHand;
                   discardPile := discardPile current ++ [cardToPlay];
                   currentSuit := None;
                   turn := player;
                   status := status current;
                   winner := winner current;
                   lastAction :=
                     "AI 打出了 " +:+ getSuitName (suit cardToPlay) +:+ " "
                     +:+ rank_str (rank cardToPlay) |}
          end
        else if (0 <? length (deck current))%nat then
          match pop (deck current) with
          | (None, _) => current
          | (Some drawnCard, newDeck) =>
              let canPlayDrawn := canPlay (Some drawnCard) (Some topCard) (currentSuit current) in
              {| deck := newDeck;
                 playerHand := playerHand current;
                 aiHand := aiHand current ++ [drawnCard];
                 discardPile := discardPile current;
                 currentSuit := currentSuit current;
                 turn := if canPlayDrawn then ai else player;
                 status := status current;
                 winner := winner current;
                 lastAction := "AI 摸了一张牌。" |}
          end
        else
          {| deck := deck current;
             playerHand := playerHand current;
             aiHand := aiHand current;
             discardPile := discardPile current;
             currentSuit := currentSuit current;
             turn := player;
             status := status current;
             winner := winner current;
             lastAction := "AI 跳过了（没有可摸的牌）" |}
    end.

(** The timer is armed only while it is the automated player's turn; its
    callback runs the update and then [reshuffleIfNeeded()]. *)
Definition aiTurn (state : GameState) : M GameState :=
  if bool_decide (status state = playing) && bool_decide (turn state = ai)
  then reshuffleIfNeeded (aiTurn_update state)
  else ret state.

(** ** The component: its two pieces of state and its handlers *)

Record App := { state : GameState; pendingEightCard : option Card }.

(** [{ ...prev, status: s }]. *)
Definition with_status (s : GameStatus) (prev : GameState) : GameState :=
  {| deck := deck prev; playerHand := playerHand prev; aiHand := aiHand prev;
     discardPile := discardPile prev; currentSuit := currentSuit prev;
     turn := turn prev; status := s; winner := winner prev;
     lastAction := lastAction prev |}.

(** The component as it is mounted: the menu, with no cards anywhere. *)
Definition initialApp : App :=
  {| state :=
       {| deck := []; playerHand := []; aiHand := []; discardPile := [];
          currentSuit := None; turn := player; status := menu; winner := None;
          lastAction := "欢迎来到 Q 疯狂 8 点！" |};
     pendingEightCard := None |}.

Definition handlePlayerPlay (card : Card) (app : App) : App :=
  let st := state app in
  if negb (bool_decide (turn st = player)) || negb (bool_decide (status st = playing)) then app
  else
    match top (discardPile st) with
    | None => app
    | Some topCard =>
        if negb (canPlay (Some card) (Some topCard) (currentSuit st)) then app
        else if bool_decide (rank card = R8) then
          {| state := with_status suit_selection st; pendingEightCard := Some card |}
        else
          {| state := playCard card player None st;
             pendingEightCard := pendingEightCard app |}
    end.

(** [handleSuitSelect] as the render of the moment builds it. *)
Definition handleSuitSelect (s : Suit) (app : App) : App :=
  match pendingEightCard app with
  | Some pending =>
      {| state := with_status playing (playCard pending player (Some s) (state app));
         pendingEightCard := None |}
  | None => app
  end.

(** The click handler of the draw pile. *)
Definition clickDeck (app : App) : M App :=
  if bool_decide (turn (state app) = player) && bool_decide (status (state app) = playing)
  then let* st := drawCard player (state app) in
       ret {| state := st; pendingEightCard := pendingEightCard app |}
  else ret app.

(** The click handler of a suit button.  The button belongs to a render,
    and its [handleSuitSelect] reads the [pendingEightCard] of that render;
    [playCard] and the two setters act on the component as it is when the
    button is clicked.  No status is tested. *)
Definition suitButton (rendered : option Card) (s : Suit) (app : App) : App :=
  match rendered with
  | Some pending =>
      {| state := with_status playing (playCard pending player (Some s) (state app));
         pendingEightCard := None |}
  | None => app
  end.

(** The three modals are the children of one [AnimatePresence], none of
    them with a key, and each has an exit animation: they take one place
    on the screen.  The modal of the status is mounted there; when the
    status has no modal, the modal that was there stays mounted, with the
    handlers of its last render, until its exit animation has ended.
    For the suit modal this records the [pendingEightCard] that the
    handlers of its four buttons read. *)
Inductive Modal :=
  | MenuModal
  | SuitModal (rendered : option Card)
  | GameOverModal.

#[global] Instance Modal_eq_dec : EqDecision Modal.
Proof. solve_decision. Defined.

(** The modal that is mounted, if one is. *)
Definition ModalSlot : Type := option Modal.

Definition noModal : ModalSlot := None.

(** A render of the component, [old] being mounted before it. *)
Definition render (app : App) (old : ModalSlot) : ModalSlot :=
  match status (state app) with
  | menu => Some MenuModal
  | suit_selection => Some (SuitModal (pendingEightCard app))
  | game_over => Some GameOverModal
  | waiting | playing => old
  end.

(** The pending card that the suit buttons on the screen read, if there
    are suit buttons. *)
Definition suitModal (m : ModalSlot) : option (option Card) :=
  match m with
  | Some (SuitModal rendered) => Some rendered
  | _ => None
  end.

(** What can happen to the component.  A card is clicked in the hand that
    is shown; a suit button is named by the [pendingEightCard] its handler
    read when it was rendered; [AnimationEnd] is the end of the exit
    animation, when a modal that is not rendered any more goes. *)
Inductive Event :=
  | ClickCard (i : nat)
  | ClickDeck
  | ClickSuit (rendered : option Card) (s : Suit)
  | AiTimer
  | WinnerEffect
  | WaitingEffect
  | ClickReset (confirmed : bool)
  | ClickStart
  | ClickPlayAgain
  | AnimationEnd.

Definition on_state (f : GameState -> M GameState) (app : App) : M App :=
  let* st := f (state app) in
  ret {| state := st; pendingEightCard := pendingEightCard app |}.

(** The handler or the effect behind each event. *)
Definition dispatch (e : Event) (app : App) : M App :=
  match e with
  | ClickCard i =>
      match playerHand (state app) !! i with
      | Some card => ret (handlePlayerPlay card app)
      | None => ret app
      end
  | ClickDeck => clickDeck app
  | ClickSuit rendered s => ret (suitButton rendered s app)
  | AiTimer => on_state aiTurn app
  | WinnerEffect => on_state (fun st => ret (checkWinner st)) app
  | WaitingEffect =>
      if bool_decide (status (state app) = waiting)
      then on_state (fun _ => initGame) app else ret app
  | ClickReset confirmed =>
      if bool_decide (status (state app) = playing) && negb confirmed then ret app
      else on_state (fun st => ret (with_status menu st)) app
  | ClickStart => on_state (fun st => ret (with_status waiting st)) app
  | ClickPlayAgain => on_state (fun _ => initGame) app
  | AnimationEnd => ret app
  end.

(** Whether the element behind an event is on the screen: the buttons of
    a modal are there while the modal is mounted, the hand, the draw pile
    and the reset button always. *)
Definition mounted (e : Event) (m : ModalSlot) : bool :=
  match e with
  | ClickSuit rendered _ => bool_decide (m = Some (SuitModal rendered))
  | ClickStart => bool_decide (m = Some MenuModal)
  | ClickPlayAgain => bool_decide (m = Some GameOverModal)
  | _ => true
  end.

(** One event: its handler runs if its element is mounted, and the
    component renders again. *)
Definition step (e : Event) (ui : App * ModalSlot) : M (App * ModalSlot) :=
  if mounted e (snd ui) then
    let* app' := dispatch e (fst ui) in
    ret (app', render app' (match e with AnimationEnd => noModal | _ => snd ui end))
  else ret ui.

Fixpoint run_from (es : list Event) (ui : App * ModalSlot) : M (App * ModalSlot) :=
  match es with
  | [] => ret ui
  | e :: es' => let* ui' := step e ui in run_from es' ui'
  end.

(** A run of the component from [app] as it is first rendered: events
    handled one after the other. *)
Definition run (es : list Event) (app : App) : M App :=
  let* ui := run_from es (app, render app noModal) in ret (fst ui).

(** The suit buttons used as the modal offers them: every click on a suit
    button comes while the status is [suit_selection]. *)
Fixpoint inPhase (es : list Event) (ui : App * ModalSlot) (g : Rng) : bool :=
  match es with
  | [] => true
  | e :: es' =>
      match e with
      | ClickSuit _ _ => bool_decide (status (state (fst ui)) = suit_selection)
      | _ => true
      end
      && (let r := step e ui g in inPhase es' (fst r) (snd r))
  end.

(** ** Rendering of the player's hand ([App.tsx], [PlayingCard.tsx]) *)

(** [topCard] of the render: the last discard card, or [null] for an empty
    pile. *)
Definition topCardOf (st : GameState) : option Card :=
  if 0 <? length (discardPile st) then top (discardPile st) else None.

(** The [isPlayable] prop that a card of the player's hand is given. *)
Definition isPlayable (card : Card) (st : GameState) : bool :=
  bool_decide (turn st = player) && bool_decide (status st = playing)
  && canPlay (Some card) (topCardOf st) (currentSuit st).

(** [PlayingCard]: a card shown face down has no click handler, a card
    shown face up has [onClick] as its handler only when [isPlayable]. *)
Definition PlayingCard_click (isFaceUp isPlayable : bool) (onClick : App -> App)
    (app : App) : App :=
  if negb isFaceUp then app
  else if isPlayable then onClick app else app.

(** A click on the [i]-th card of the player's hand as it is rendered. *)
Definition clickHandCard (i : nat) (app : App) : App :=
  match playerHand (state app) !! i with
  | Some card =>
      PlayingCard_click true (isPlayable card (state app)) (handlePlayerPlay card) app
  | None => app
  end.

(** * Vocabulary of the statements *)

(** The value of a card, as opposed to its identity. *)
Definition key (c : Card) : Suit * Rank := (suit c, rank c).

(** The identity of a card made by [createDeck] starts with its value. *)
Definition minted (c : Card) : Prop := exists tok, id c = mkId (rank c) (suit c) tok.

(** A full deck: the 52 values once each, under pairwise distinct identities. *)
Definition standard (d : list Card) : Prop :=
  NoDup (id <$> d) /\ key <$> d ≡ₚ list_prod SUITS RANKS.

(** The legality test of the candidate filter: [canPlay], as in
    [handlePlayerPlay]. *)
Definition legal (topCard : Card) (cs : option Suit) (x : Card) : Prop :=
  canPlay (Some x) (Some topCard) cs = true.

(** The position of a suit among the keys of [suitCounts]. *)
Definition keyIndex (s : Suit) : nat :=
  match s with hearts => 0 | diamonds => 1 | clubs => 2 | spades => 3 end.

(** How many cards of suit [s] the hand holds, the card played apart. *)
Definition restCount (hand : list Card) (played : Card) (s : Suit) : nat :=
  length (filter (fun x => suit x = s) (filter (fun x => id x <> id played) hand)).

(** The four places a card can be in. *)
Definition zones (st : GameState) : list Card :=
  playerHand st ++ aiHand st ++ deck st ++ discardPile st.






(** What holds of the table in every state a run reaches: the discard
    pile has a top card, and a suit override is in force only over an 8. *)
Definition tableOk (st : GameState) : Prop :=
  (exists t, top (discardPile st) = Some t)
  /\ (forall s, currentSuit st = Some s ->
       exists t, top (discardPile st) = Some t /\ rank t = R8).

(** What holds of the component in every state a run reaches: the table is
    as above; while a suit is being chosen it is the player's turn and the
    pending card is an 8 of the player's hand; when the game is over the
    winner recorded is a player whose hand is empty, the human player
    first; and the card that the suit buttons on the screen play is
    an 8. *)
Definition soundApp (app : App) : Prop :=
  let st := state app in
  tableOk st
  /\ (status st = suit_selection ->
      turn st = player
      /\ exists c, pendingEightCard app = Some c /\ rank c = R8 /\ c ∈ playerHand st)
  /\ (status st = game_over ->
      (winner st = Some player /\ playerHand st = [])
      \/ (winner st = Some ai /\ aiHand st = [] /\ playerHand st <> [])).

Definition sound (ui : App * ModalSlot) : Prop :=
  soundApp (fst ui)
  /\ (forall c, suitModal (snd ui) = Some (Some c) -> rank c = R8).

(** The component as a render has left it: the modal of the status is
    the one in place. *)
Definition settled (ui : App * ModalSlot) : Prop :=
  render (fst ui) (snd ui) = snd ui.

(** The moves of the game: a card played, a draw, a suit chosen, the
    automated turn and the winner check. *)
Definition gameMove (e : Event) : bool :=
  match e with
  | ClickCard _ | ClickDeck | ClickSuit _ _ | AiTimer | WinnerEffect => true
  | _ => false
  end.


(** The hand of a player, and the player who is not [p]. *)
Definition handOf (p : Player) (st : GameState) : list Card :=
  if bool_decide (p = player) then playerHand st else aiHand st.

Definition otherPlayer (p : Player) : Player :=
  match p with player => ai | ai => player end.

(** The least multiple of [2^-26] that is at least [j / (i + 1)]; on it
    [Math.floor(x * (i + 1))] is [j] when [j <= i < 2^26], the product
    being exact. *)
Definition sampleFor (i j : nat) : Sample :=
  {| mant := (N.of_nat j * 2 ^ 26 + N.of_nat i) / N.of_nat (i + 1) * 2 ^ 27;
     expo := 0;
     text36 := "0" |}.

(** A random source that returns [x] first and then what [g] returns. *)
Definition consRng (x : Sample) (g : Rng) : Rng :=
  fun n => match n with 0 => x | S n' => g n' end.

(** * Concrete cards and states for the examples *)

Definition mkCard (r : Rank) (s : Suit) : Card :=
  {| id := mkId r s "k3v9x2m1q"; suit := s; rank := r |}.

(** A random source: the fractional parts of the multiples of a constant,
    each printed with the same nine digits. *)
Definition g0 : Rng :=
  fun n =>
    {| mant := (N.of_nat n + 40000) * 6364136223846793005 + 1442695040888963407;
       expo := 0;
       text36 := "0.k3v9x2m1qf" |}.

(** The player holds 8♥ and 5♣; the automated player has played 8♦ on 3♦
    and nominated clubs. *)
Definition ex_wild : App :=
  {| state :=
       {| deck := [mkCard R2 diamonds; mkCard R9 clubs];
          playerHand := [mkCard R8 hearts; mkCard R5 clubs];
          aiHand := [mkCard RK spades];
          discardPile := [mkCard R3 diamonds; mkCard R8 diamonds];
          currentSuit := Some clubs;
          turn := player;
          status := playing;
          winner := None;
          lastAction := "" |};
     pendingEightCard := None |}.

(** The draw pile is empty and the discard pile holds one card; the player,
    who is to move, holds no card that can be played on it. *)
Definition ex_stuck : App :=
  {| state :=
       {| deck := [];
          playerHand := [mkCard R5 clubs; mkCard RK spades];
          aiHand := [mkCard R2 hearts];
          discardPile := [mkCard R3 diamonds];
          currentSuit := None;
          turn := player;
          status := playing;
          winner := None;
          lastAction := "" |};
     pendingEightCard := None |}.

(** The draw pile is empty, the discard pile holds three cards, and the
    automated player, who is to move, holds no card that can be played. *)
Definition ex_ai_empty : GameState :=
  {| deck := [];
     playerHand := [mkCard R2 hearts];
     aiHand := [mkCard RK clubs];
     discardPile := [mkCard R3 diamonds; mkCard R4 diamonds; mkCard R5 diamonds];
     currentSuit := None;
     turn := ai;
     status := playing;
     winner := None;
     lastAction := "" |}.

(** A deck of eighteen cards whose last two, the cards left after the
    hands, are both 8s. *)
Definition ex_deck : list Card :=
  ((fun r => mkCard r hearts) <$> [RA; R2; R3; R4; R5; R6; R7; R9])
  ++ ((fun r => mkCard r clubs) <$> [RA; R2; R3; R4; R5; R6; R7; R9])
  ++ [mkCard R8 hearts; mkCard R8 diamonds].

(** The automated player holds 8♦, 5♥ and 5♣ in this order; 5♠ is on top. *)
Definition ex_ai_fives : GameState :=
  {| deck := [mkCard R2 diamonds; mkCard R9 clubs; mkCard R9 hearts];
     playerHand := [mkCard RK spades];
     aiHand := [mkCard R8 diamonds; mkCard R5 hearts; mkCard R5 clubs];
     discardPile := [mkCard R5 spades];
     currentSuit := None;
     turn := ai;
     status := playing;
     winner := None;
     lastAction := "" |}.

(** The automated player holds 8♦, 2♥ and 3♣; K♠ is on top. *)
Definition ex_ai_eight : GameState :=
  {| deck := [mkCard R2 diamonds; mkCard R9 clubs; mkCard R9 hearts];
     playerHand := [mkCard RK diamonds];
     aiHand := [mkCard R2 hearts; mkCard R8 diamonds; mkCard R3 clubs];
     discardPile := [mkCard RK spades];
     currentSuit := None;
     turn := ai;
     status := playing;
     winner := None;
     lastAction := "" |}.

(** The player has played the last card of the hand. *)
Definition ex_last_card : GameState :=
  {| deck := [mkCard R2 diamonds];
     playerHand := [];
     aiHand := [mkCard RK clubs];
     discardPile := [mkCard R3 diamonds; mkCard R4 diamonds];
     currentSuit := None;
     turn := ai;
     status := playing;
     winner := None;
     lastAction := "" |}.

(** A game dealt from [g0]: the player holds 4♥, K♣, 8♣, 10♠, 4♦, J♦, 9♥
    and 6♦, and 5♠ is on the discard pile. *)
Definition ex_start : App :=
  {| state := fst (initGame g0); pendingEightCard := None |}.

(** A game from [ex_start], with the winner check after every card played:
    the player plays the first card that is not an 8 and can be played, or
    draws, and keeps 8♣ for the end; with it the player wins. *)
Definition ex_run_over : list Event :=
  [ClickCard 3; WinnerEffect; AiTimer; WinnerEffect;
   ClickCard 4; WinnerEffect; AiTimer; WinnerEffect;
   ClickCard 0; WinnerEffect; AiTimer; WinnerEffect;
   ClickCard 3; WinnerEffect; AiTimer; WinnerEffect; ClickDeck;
   ClickCard 4; WinnerEffect; AiTimer; WinnerEffect;
   ClickCard 2; WinnerEffect; AiTimer; WinnerEffect;
   ClickCard 0; WinnerEffect; AiTimer; WinnerEffect;
   ClickCard 1; WinnerEffect; AiTimer; WinnerEffect;
   ClickCard 0; ClickSuit (Some (mkCard R8 clubs)) hearts; WinnerEffect].

(** Its first 34 events, after which the player has clicked 8♣, the last
    card of the hand, and is asked for a suit. *)
Definition ex_run_select : list Event := take 34 ex_run_over.

(** Its first 35 events, after which the player has chosen hearts. *)
Definition ex_run_override : list Event := take 35 ex_run_over.

(** The game above, and then a click on the spades button of the suit
    modal that was answered. *)
Definition ex_run_late_click : list Event :=
  ex_run_over ++ [ClickSuit (Some (mkCard R8 clubs)) spades].

(** From [ex_start] the player plays 8♣ at once and clicks two suit
    buttons of the same modal, one after the other. *)
Definition ex_run_twice : list Event :=
  [ClickCard 2; ClickSuit (Some (mkCard R8 clubs)) hearts;
   ClickSuit (Some (mkCard R8 clubs)) spades].

(** * Properties *)

Ltac case_ltb :=
  match goal with
  | |- context [(?x <? ?y)] =>
      is_var x; is_var y; destruct (Nat.ltb_spec x y); cbv beta iota
  end.

(** ** The legality predicate *)

(** C1. For every card [c], top card [t] (possibly absent) and optional
    override [s], [canPlay c t s] is true exactly when [c] has the wild
    rank, or [t] is absent, or the suit of [c] is the target suit ([s] when
    set, the suit of [t] otherwise), or [c] and [t] have the same rank. *)
Theorem canPlay_iff (c : Card) (t : option Card) (s : option Suit) :
  canPlay (Some c) t s = true <->
  rank c = R8
  \/ t = None
  \/ (exists t', t = Some t' /\ suit c = match s with Some s' => s' | None => suit t' end)
  \/ (exists t', t = Some t' /\ rank c = rank t').
Proof.
  unfold canPlay.
  destruct t as [t'|], s as [s'|]; simpl; case_bool_decide as Hr;
    rewrite ?orb_true_iff, ?bool_decide_eq_true;
    (split; [intros H | intros [H|[H|[(t0 & Ht & H)|(t0 & Ht & H)]]]]);
    try done; simplify_eq; auto; destruct H; eauto 6.
Qed.

(** C10. [canPlay] answers on every input, and answers false when the card
    itself is absent, whatever the top card and the override. *)
Theorem canPlay_absent_card (t : option Card) (s : option Suit) :
  canPlay None t s = false.
Proof. reflexivity. Qed.

(** ** The shuffle returns a permutation *)

Lemma swap_Permutation (a : list Card) (i j : nat) : swap a i j ≡ₚ a.
Proof.
  unfold swap.
  destruct (a !! i) as [ai|] eqn:Hi; [|done].
  destruct (a !! j) as [aj|] eqn:Hj; [|done].
  by apply Permutation_insert_swap.
Qed.

Lemma shuffle_loop_Permutation (i : nat) (a : list Card) (g : Rng) :
  fst (shuffle_loop i a g) ≡ₚ a.
Proof.
  revert a g. induction i as [|i IH]; intros a g; simpl; [done|].
  unfold bind, random. rewrite IH. apply swap_Permutation.
Qed.

Lemma shuffle_Permutation (d : list Card) (g : Rng) : fst (shuffle d g) ≡ₚ d.
Proof. apply shuffle_loop_Permutation. Qed.

(** Rounding moves a number up by at most half a unit of the last digit
    that is kept. *)
Lemma round53_le (n : N) :
  (round53 n = n
   \/ exists s, (53 + S s)%nat = N.to_nat (N.size n) /\ round53 n <= n + 2 ^ N.of_nat s)%N.
Proof.
  unfold round53.
  destruct (N.leb_spec (N.size n) 53) as [Hd|Hd]; [by left|].
  right. exists (N.to_nat (N.size n - 53) - 1). split; [lia|].
  set (s := (N.size n - 53)%N).
  replace (N.of_nat (N.to_nat s - 1)) with (s - 1)%N by lia.
  assert (Hs : (2 ^ s = 2 * 2 ^ (s - 1))%N).
  { rewrite <- N.pow_succ_r'. f_equal. lia. }
  assert (Hpos : (2 ^ (s - 1) <> 0)%N) by (apply N.pow_nonzero; lia).
  pose proof (N.Div0.div_mod n (2 ^ s)) as Hdm.
  pose proof (N.mod_lt n (2 ^ s)) as Hlt.
  destruct (_ || _) eqn:E.
  - assert (2 ^ (s - 1) <= n mod 2 ^ s)%N.
    { apply orb_true_iff in E as [E|E].
      - apply N.ltb_lt in E. lia.
      - apply andb_true_iff in E as [E _]. apply N.eqb_eq in E. lia. }
    rewrite Hs in *. set (h := (2 ^ (s - 1))%N) in *.
    set (q := (n / (2 * h))%N) in *. set (r := (n mod (2 * h))%N) in *. nia.
  - rewrite Hs in *. set (h := (2 ^ (s - 1))%N) in *.
    set (q := (n / (2 * h))%N) in *. set (r := (n mod (2 * h))%N) in *. nia.
Qed.

(** The rounded product of a number below 1 and [k] is still below [k]. *)
Lemma round53_lt (m k : N) :
  (m < 2 ^ 53 -> 0 < k -> round53 (m * k) < k * 2 ^ 53)%N.
Proof.
  intros Hm Hk.
  destruct (round53_le (m * k)) as [->|(s & Hs & Hle)]; [nia|].
  pose proof (N.size_log2 (m * k)) as Hsz.
  assert (Hne : (m * k)%N <> 0%N).
  { intros H0. rewrite H0 in Hs. simpl in Hs. lia. }
  specialize (Hsz Hne).
  destruct (N.log2_spec (m * k)) as [Hlo _]; [lia|].
  assert (Hlog : N.log2 (m * k) = (N.of_nat s + 53)%N) by lia.
  rewrite Hlog, N.pow_add_r in Hlo.
  nia.
Qed.

(** The index drawn at step [i] of the shuffle lies between 0 and [i]. *)
Lemma floor_mul_lt (x : Sample) (k : nat) : 0 < k -> floor_mul x k < k.
Proof.
  intros Hk. unfold floor_mul.
  assert (Hm : (significand x < 2 ^ 53)%N) by (apply N.mod_lt; done).
  pose proof (round53_lt (significand x) (N.of_nat k) Hm) as Hr.
  assert (Hsc : (2 ^ 53 <= 2 ^ scale x)%N).
  { apply N.pow_le_mono_r; [done|]. unfold scale. lia. }
  assert (round53 (significand x * N.of_nat k) / 2 ^ scale x < N.of_nat k)%N.
  { apply N.Div0.div_lt_upper_bound. nia. }
  lia.
Qed.

Lemma swap_length (a : list Card) (i j : nat) : length (swap a i j) = length a.
Proof. apply Permutation_length, swap_Permutation. Qed.

(** Inside the array [swap] exchanges the two elements. *)
Lemma swap_in_range (a : list Card) (i j : nat) :
  i < length a -> j <= i ->
  exists ai aj,
    a !! i = Some ai /\ a !! j = Some aj /\ swap a i j = <[j := ai]> (<[i := aj]> a).
Proof.
  intros Hi Hj.
  destruct (lookup_lt_is_Some_2 a i Hi) as [ai Hai].
  destruct (lookup_lt_is_Some_2 a j) as [aj Haj]; [lia|].
  exists ai, aj. unfold swap. by rewrite Hai, Haj.
Qed.

(** Every step of the shuffle loop swaps inside the array: the loop is
    entered below the length, and the index drawn is at most [i]. *)
Lemma shuffle_loop_step (i : nat) (a : list Card) (g : Rng) :
  S i < length a ->
  let j := floor_mul (g 0) (S i + 1) in
  j <= S i
  /\ shuffle_loop (S i) a g = shuffle_loop i (swap a (S i) j) (fun n => g (S n))
  /\ i < length (swap a (S i) j).
Proof.
  intros Hi j. split; [|split].
  - pose proof (floor_mul_lt (g 0) (S i + 1)). lia.
  - reflexivity.
  - rewrite swap_length. lia.
Qed.

(** ** Array helpers *)

Lemma top_snoc (a : list Card) (c : Card) : top (a ++ [c]) = Some c.
Proof. apply last_snoc. Qed.

Lemma slice_0_m1_snoc (a : list Card) (c : Card) : slice_0_m1 (a ++ [c]) = a.
Proof.
  unfold slice_0_m1. rewrite length_app. simpl.
  apply take_app_length'. lia.
Qed.

Lemma pop_snoc (a : list Card) (c : Card) : pop (a ++ [c]) = (Some c, a).
Proof.
  unfold pop. rewrite last_snoc. f_equal. apply slice_0_m1_snoc.
Qed.

Lemma nonempty_snoc (a : list Card) : a <> [] -> exists a' c, a = a' ++ [c].
Proof.
  intros Ha. destruct (last a) as [c|] eqn:E.
  - apply last_Some in E as [a' ->]. eauto.
  - by apply last_None in E.
Qed.

(** ** Reshuffle *)

(** C5. [reshuffleIfNeeded] returns the state as it is when the draw pile
    has more than two cards or the discard pile at most one.  Otherwise
    the discard pile becomes the one card that was on top of it, and the
    new draw pile is a permutation of the old draw pile followed by the
    discard cards below the top. *)
Theorem reshuffleIfNeeded_spec (prev : GameState) (g : Rng) :
  (2 < length (deck prev) \/ length (discardPile prev) <= 1 ->
   reshuffleIfNeeded prev g = (prev, g))
  /\ (length (deck prev) <= 2 -> 1 < length (discardPile prev) ->
      exists restOfDiscard topCard,
        discardPile prev = restOfDiscard ++ [topCard]
        /\ discardPile (fst (reshuffleIfNeeded prev g)) = [topCard]
        /\ (id <$> top (discardPile (fst (reshuffleIfNeeded prev g)))) =
             (id <$> top (discardPile prev))
        /\ deck (fst (reshuffleIfNeeded prev g)) ≡ₚ deck prev ++ restOfDiscard).
Proof.
  unfold reshuffleIfNeeded. split.
  - intros H.
    destruct (2 <? length (deck prev)) eqn:E1; [done|].
    destruct (length (discardPile prev) <=? 1) eqn:E2; [done|].
    apply Nat.ltb_ge in E1. apply Nat.leb_gt in E2. lia.
  - intros H1 H2.
    destruct (2 <? length (deck prev)) eqn:E1; [apply Nat.ltb_lt in E1; lia|].
    destruct (length (discardPile prev) <=? 1) eqn:E2; [apply Nat.leb_le in E2; lia|].
    simpl.
    destruct (nonempty_snoc (discardPile prev)) as (rest & topCard & Hd).
    { intros Hnil. rewrite Hnil in H2. simpl in H2. lia. }
    exists rest, topCard. rewrite Hd, top_snoc, slice_0_m1_snoc.
    unfold bind, ret.
    pose proof (shuffle_Permutation (deck prev ++ rest) g) as Hp.
    destruct (shuffle (deck prev ++ rest) g) as [newDeck g']. simpl in *.
    done.
Qed.

(** ** The deck of [createDeck] *)

Lemma rank_str_prefix (r r' : Rank) (x y : string) :
  rank_str r +:+ "-" +:+ x = rank_str r' +:+ "-" +:+ y -> r = r' /\ x = y.
Proof.
  destruct r, r'; simpl; intros H; inversion H; auto.
Qed.

Lemma suit_str_prefix (s s' : Suit) (x y : string) :
  suit_str s +:+ "-" +:+ x = suit_str s' +:+ "-" +:+ y -> s = s' /\ x = y.
Proof.
  destruct s, s'; simpl; intros H; inversion H; auto.
Qed.

Lemma mkId_inj (r r' : Rank) (s s' : Suit) (t t' : string) :
  mkId r s t = mkId r' s' t' -> r = r' /\ s = s' /\ t = t'.
Proof.
  unfold mkId. intros H.
  apply rank_str_prefix in H as [-> H].
  apply suit_str_prefix in H as [-> H]. auto.
Qed.

Lemma minted_key (c c' : Card) : minted c -> minted c' -> id c = id c' -> key c = key c'.
Proof.
  intros [t Ht] [t' Ht'] H. rewrite Ht, Ht' in H.
  apply mkId_inj in H as (Hr & Hs & _). unfold key. congruence.
Qed.

Lemma NoDup_ids (l : list Card) :
  Forall minted l -> NoDup (key <$> l) -> NoDup (id <$> l).
Proof.
  induction l as [|c l IH]; simpl; intros Hm Hk; [constructor|].
  apply Forall_cons in Hm as [Hc Hm]. apply NoDup_cons in Hk as [Hck Hk].
  apply NoDup_cons. split; [|auto].
  intros (c' & Heq & Hin)%list_elem_of_fmap.
  apply Hck. apply list_elem_of_fmap. exists c'. split; [|done].
  apply minted_key; auto.
  rewrite Forall_forall in Hm. auto.
Qed.

Lemma orderedDeck_keys (g : Rng) :
  key <$> fst (orderedDeck g) = list_prod SUITS RANKS.
Proof. reflexivity. Qed.

Lemma orderedDeck_minted (g : Rng) : Forall minted (fst (orderedDeck g)).
Proof.
  unfold orderedDeck, SUITS, RANKS, for_of, bind, newCard, random, ret. simpl.
  repeat (constructor; [unfold minted; simpl; eexists; reflexivity|]).
  constructor.
Qed.

Lemma createDeck_orderedDeck (g : Rng) : fst (createDeck g) ≡ₚ fst (orderedDeck g).
Proof.
  unfold createDeck, bind. destruct (orderedDeck g) as [d g1]. apply shuffle_Permutation.
Qed.

Lemma createDeck_standard (g : Rng) : standard (fst (createDeck g)).
Proof.
  unfold standard. rewrite createDeck_orderedDeck. split.
  - apply NoDup_ids; [apply orderedDeck_minted|].
    rewrite orderedDeck_keys. compute_done.
  - by rewrite orderedDeck_keys.
Qed.

Lemma standard_length (d : list Card) : standard d -> length d = 52.
Proof.
  intros [_ H]. apply Permutation_length in H. rewrite length_fmap in H. exact H.
Qed.

(** ** Starting a game *)

Lemma findIndex_from_found (p : Card -> bool) (before after : list Card) (c : Card) (i : Z) :
  Forall (fun x => p x = false) before -> p c = true ->
  findIndex_from p (before ++ c :: after) i = (i + Z.of_nat (length before))%Z.
Proof.
  revert i. induction before as [|x before IH]; simpl; intros i Hb Hc.
  - rewrite Hc. lia.
  - apply Forall_cons in Hb as [Hx Hb]. rewrite Hx, IH by done. lia.
Qed.

Lemma findIndex_from_none (p : Card -> bool) (a : list Card) (i : Z) :
  Forall (fun x => p x = false) a -> findIndex_from p a i = (-1)%Z.
Proof.
  revert i. induction a as [|x a IH]; simpl; intros i Ha; [done|].
  apply Forall_cons in Ha as [Hx Ha]. rewrite Hx. auto.
Qed.

(** Either some element satisfies [p], and the list splits at the first
    one, or none does. *)
Lemma first_split (p : Card -> bool) (a : list Card) :
  (exists before c after,
      a = before ++ c :: after /\ Forall (fun x => p x = false) before /\ p c = true)
  \/ Forall (fun x => p x = false) a.
Proof.
  induction a as [|x a IH]; [right; constructor|].
  destruct (p x) eqn:Hx.
  - left. exists [], x, a. repeat split; [constructor|done].
  - destruct IH as [(before & c & after & -> & Hb & Hc)|Hall].
    + left. exists (x :: before), c, after. repeat split; [by constructor|done].
    + right. by constructor.
Qed.

Lemma splice_one (before after : list Card) (c : Card) :
  splice (before ++ c :: after) (length before) 1 = ([c], before ++ after).
Proof.
  unfold splice. f_equal.
  - rewrite drop_app_length. done.
  - rewrite take_app_length. f_equal.
    rewrite <- (drop_drop (before ++ c :: after) 1 (length before)); simpl.
    rewrite drop_app_length. done.
Qed.

Lemma deal_spec (fullDeck : list Card) :
  16 < length fullDeck ->
  let st := deal fullDeck in
  let remainder := drop 16 fullDeck in
  playerHand st = take 8 fullDeck
  /\ aiHand st = take 8 (drop 8 fullDeck)
  /\ length (playerHand st) = 8
  /\ length (aiHand st) = 8
  /\ ((exists before c after,
         remainder = before ++ c :: after
         /\ Forall (fun x => rank x = R8) before /\ rank c <> R8
         /\ discardPile st = [c] /\ deck st = before ++ after)
      \/ (Forall (fun x => rank x = R8) remainder
          /\ exists c after,
               remainder = c :: after /\ discardPile st = [c] /\ deck st = after))
  /\ turn st = player /\ status st = playing /\ currentSuit st = None
  /\ winner st = None.
Proof.
  intros Hlen st remainder.
  assert (Hrem : remainder = drop 8 (drop 8 fullDeck)) by (unfold remainder; by rewrite drop_drop).
  subst st. unfold deal, splice. simpl. rewrite !drop_0. rewrite <- Hrem.
  set (p := fun c : Card => negb (bool_decide (rank c = R8))).
  assert (Hp8 : forall l, Forall (fun x => p x = false) l -> Forall (fun x => rank x = R8) l).
  { intros l Hl. eapply Forall_impl; [exact Hl|]. intros x. unfold p. simpl.
    case_bool_decide; [done|discriminate]. }
  repeat split; try reflexivity.
  - rewrite length_take. lia.
  - rewrite length_take, length_drop. lia.
  - destruct (first_split p remainder) as [(before & c & after & Hsplit & Hb & Hc)|Hall].
    + left. exists before, c, after.
      unfold findIndex. rewrite Hsplit, findIndex_from_found by done.
      destruct (Z.eqb_spec (0 + Z.of_nat (length before)) (-1)) as [Hneg|_]; [lia|].
      rewrite Z.add_0_l, Nat2Z.id.
      pose proof (splice_one before after c) as Hs. unfold splice in Hs.
      injection Hs as Hs1 Hs2. rewrite Hs1, Hs2. simpl.
      repeat split; auto.
      unfold p in Hc. by case_bool_decide.
    + right. split; [auto|].
      destruct remainder as [|c after] eqn:Hr.
      { assert (length remainder = 0) as Hl by (by rewrite Hr).
        unfold remainder in Hl. rewrite length_drop in Hl. lia. }
      exists c, after.
      unfold findIndex. rewrite findIndex_from_none by done. simpl.
      by rewrite drop_0.
Qed.

Lemma initGame_deal (g : Rng) :
  exists fullDeck g',
    createDeck g = (fullDeck, g') /\ standard fullDeck /\ length fullDeck = 52
    /\ initGame g = (deal fullDeck, g').
Proof.
  pose proof (createDeck_standard g) as Hstd.
  unfold initGame, bind, ret.
  destruct (createDeck g) as [fullDeck g'] eqn:E. simpl in Hstd.
  exists fullDeck, g'. repeat split; try apply Hstd.
  by apply standard_length.
Qed.

(** C6. [initGame] builds the shuffled deck of 52 cards and deals it.  The
    deal gives the first eight cards to the player and the next eight to
    the automated player; the discard pile is the first remaining card that
    is not an 8, or the first remaining card when all of them are 8s; the
    other remaining cards, in their order, are the draw pile; the player is
    to move, the status is [playing] and no suit override is active. *)
Theorem initGame_spec :
  (forall g : Rng,
      exists fullDeck g',
        createDeck g = (fullDeck, g') /\ standard fullDeck /\ length fullDeck = 52
        /\ initGame g = (deal fullDeck, g'))
  /\ (forall fullDeck : list Card,
        16 < length fullDeck ->
        let st := deal fullDeck in
        let remainder := drop 16 fullDeck in
        playerHand st = take 8 fullDeck
        /\ aiHand st = take 8 (drop 8 fullDeck)
        /\ length (playerHand st) = 8
        /\ length (aiHand st) = 8
        /\ ((exists before c after,
               remainder = before ++ c :: after
               /\ Forall (fun x => rank x = R8) before /\ rank c <> R8
               /\ discardPile st = [c] /\ deck st = before ++ after)
            \/ (Forall (fun x => rank x = R8) remainder
                /\ exists c after,
                     remainder = c :: after /\ discardPile st = [c] /\ deck st = after))
        /\ turn st = player /\ status st = playing /\ currentSuit st = None
        /\ winner st = None).
Proof.
  split; [apply initGame_deal|apply deal_spec].
Qed.

(** ** The policy of the automated player *)

Section Policy.

Variables (topCard : Card) (cs : option Suit).

Lemma playableCards_none (hand : list Card) :
  Forall (fun x => ~ legal topCard cs x) hand -> playableCards hand topCard cs = [].
Proof.
  unfold playableCards. induction hand as [|x hand IH]; intros H; [done|].
  apply Forall_cons in H as [Hx H]. rewrite filter_cons_False by done. auto.
Qed.

Lemma playableCards_split (before after : list Card) (c : Card) :
  legal topCard cs c ->
  playableCards (before ++ c :: after) topCard cs =
  playableCards before topCard cs ++ c :: playableCards after topCard cs.
Proof.
  intros Hc. unfold playableCards. rewrite filter_app. f_equal.
  by rewrite filter_cons_True.
Qed.

Lemma find_nonEight_first (before after : list Card) (c : Card) :
  legal topCard cs c -> rank c <> R8 ->
  Forall (fun x => ~ (legal topCard cs x /\ rank x <> R8)) before ->
  find (fun c => negb (bool_decide (rank c = R8)))
    (playableCards (before ++ c :: after) topCard cs) = Some c.
Proof.
  intros Hc Hr Hb. rewrite playableCards_split by done.
  unfold playableCards.
  induction before as [|x before IH].
  - rewrite filter_nil. cbn [app find]. by rewrite bool_decide_eq_false_2.
  - apply Forall_cons in Hb as [Hx Hb].
    rewrite filter_cons. destruct (decide (canPlay (Some x) (Some topCard) cs = true)) as [Hl|Hl].
    + cbn [app find]. destruct (decide (rank x = R8)) as [H8|H8].
      * rewrite bool_decide_eq_true_2 by done. cbn [negb]. auto.
      * exfalso. apply Hx. by split.
    + auto.
Qed.

(** With a legal topCard cs card that is not an 8 in the hand, the first such card
    is chosen. *)
Lemma cardToPlayOf_nonEight (before after : list Card) (c : Card) :
  legal topCard cs c -> rank c <> R8 ->
  Forall (fun x => ~ (legal topCard cs x /\ rank x <> R8)) before ->
  cardToPlayOf (playableCards (before ++ c :: after) topCard cs) = Some c.
Proof.
  intros Hc Hr Hb. unfold cardToPlayOf. by rewrite find_nonEight_first.
Qed.

Lemma find_nonEight_none (l : list Card) :
  Forall (fun x => rank x = R8) l ->
  find (fun c => negb (bool_decide (rank c = R8))) l = None.
Proof.
  induction l as [|x l IH]; simpl; intros H; [done|].
  apply Forall_cons in H as [Hx H]. rewrite bool_decide_eq_true_2 by done. simpl. auto.
Qed.

(** With legal topCard cs cards that are all 8s, the first legal topCard cs card is chosen. *)
Lemma cardToPlayOf_eight (before after : list Card) (c : Card) :
  legal topCard cs c ->
  Forall (fun x => legal topCard cs x -> rank x = R8) (before ++ c :: after) ->
  Forall (fun x => ~ legal topCard cs x) before ->
  cardToPlayOf (playableCards (before ++ c :: after) topCard cs) = Some c.
Proof.
  intros Hc Hall Hb. unfold cardToPlayOf.
  rewrite find_nonEight_none.
  - rewrite playableCards_split, playableCards_none by done. done.
  - unfold playableCards. apply Forall_forall. intros x [Hx Hin]%list_elem_of_filter.
    rewrite Forall_forall in Hall. auto.
Qed.

End Policy.

Lemma keyIndex_lookup (s : Suit) : (fst <$> suitCounts0) !! keyIndex s = Some s.
Proof. by destruct s. Qed.

Lemma countSuits_from (hand : list Card) (played : Card) (a b c d : nat) :
  fold_left
    (fun counts x => if bool_decide (id x <> id played) then incr (suit x) counts else counts)
    hand [(hearts, a); (diamonds, b); (clubs, c); (spades, d)]
  = [(hearts, a + restCount hand played hearts);
     (diamonds, b + restCount hand played diamonds);
     (clubs, c + restCount hand played clubs);
     (spades, d + restCount hand played spades)].
Proof.
  revert a b c d. unfold restCount.
  induction hand as [|x hand IH]; intros a b c d; cbn [fold_left].
  - rewrite !filter_nil. cbn [length]. by rewrite !Nat.add_0_r.
  - rewrite (filter_cons (fun x => id x <> id played)).
    destruct (decide (id x <> id played)) as [Hx|Hx].
    + rewrite bool_decide_eq_true_2 by done.
      rewrite !(filter_cons _ x).
      destruct (suit x) eqn:Hs; simpl; rewrite IH; simpl;
        repeat (f_equal; try lia).
    + rewrite bool_decide_eq_false_2 by done. apply IH.
Qed.

Lemma countSuits_eq (hand : list Card) (played : Card) :
  countSuits hand played
  = [(hearts, restCount hand played hearts);
     (diamonds, restCount hand played diamonds);
     (clubs, restCount hand played clubs);
     (spades, restCount hand played spades)].
Proof. unfold countSuits, suitCounts0. by rewrite countSuits_from. Qed.

(** The suit nominated has the highest count; among the suits with that
    count it is the last key. *)
Lemma bestSuitOf_max (a b c d : nat) :
  let counts := [(hearts, a); (diamonds, b); (clubs, c); (spades, d)] in
  let best := bestSuitOf counts in
  forall s, getCount counts s <= getCount counts best
            /\ (getCount counts s = getCount counts best -> keyIndex s <= keyIndex best).
Proof.
  intros counts best s. subst best. unfold bestSuitOf. cbn [map fmap fst fold_left counts].
  assert (Hh : getCount counts hearts = a) by reflexivity.
  assert (Hd : getCount counts diamonds = b) by reflexivity.
  assert (Hc : getCount counts clubs = c) by reflexivity.
  assert (Hs : getCount counts spades = d) by reflexivity.
  rewrite Hd, Hh.
  repeat (case_ltb; rewrite ?Hs, ?Hc, ?Hh, ?Hd);
    destruct s; rewrite ?Hs, ?Hc, ?Hh, ?Hd; cbn [keyIndex]; lia.
Qed.

Lemma bestSuitOf_max_fun (f : Suit -> nat) :
  let best :=
    bestSuitOf [(hearts, f hearts); (diamonds, f diamonds); (clubs, f clubs); (spades, f spades)] in
  forall s, f s <= f best /\ (f s = f best -> keyIndex s <= keyIndex best).
Proof.
  intros best s.
  pose proof (bestSuitOf_max (f hearts) (f diamonds) (f clubs) (f spades) s) as H.
  cbv zeta in H. fold best in H.
  assert (Hget : forall x,
    getCount [(hearts, f hearts); (diamonds, f diamonds); (clubs, f clubs); (spades, f spades)] x
    = f x) by (by intros []).
  by rewrite !Hget in H.
Qed.

Lemma cardToPlayOf_playable (playable : list Card) (c : Card) :
  cardToPlayOf playable = Some c -> (0 <? length playable) = true.
Proof.
  destruct playable; [discriminate|done].
Qed.

(** The update of the automated turn, once the card to play is known. *)
Lemma aiTurn_update_play (current : GameState) (topCard c : Card) :
  status current = playing -> turn current = ai ->
  top (discardPile current) = Some topCard ->
  cardToPlayOf (playableCards (aiHand current) topCard (currentSuit current)) = Some c ->
  let st := aiTurn_update current in
  deck st = deck current
  /\ playerHand st = playerHand current
  /\ aiHand st = filter (fun x => id x <> id c) (aiHand current)
  /\ discardPile st = discardPile current ++ [c]
  /\ currentSuit st =
       (if bool_decide (rank c = R8)
        then Some (bestSuitOf (countSuits (aiHand current) c)) else None)
  /\ turn st = player
  /\ status st = playing.
Proof.
  intros Hs Ht Htop Hc. unfold aiTurn_update.
  rewrite Hs, Ht, Htop. rewrite !bool_decide_eq_true_2 by done. cbn [negb orb].
  rewrite (cardToPlayOf_playable _ _ Hc), Hc.
  destruct (bool_decide (rank c = R8)); cbn; auto 10.
Qed.

(** C7. The move of the automated player is a function of its hand, the
    top discard card and the suit override.  The candidates are the cards
    of the hand that [canPlay] accepts.  When a candidate is not an 8, the
    first such card in hand order is played and no suit is nominated.  When
    every candidate is an 8, the first candidate is played, and the suit
    nominated has the highest count among the cards of the hand other than
    the played one; of the suits with that count it is the last in the
    order hearts, diamonds, clubs, spades. *)
Theorem ai_policy (current : GameState) (topCard c : Card) (before after : list Card) :
  status current = playing -> turn current = ai ->
  top (discardPile current) = Some topCard ->
  aiHand current = before ++ c :: after ->
  legal topCard (currentSuit current) c ->
  let isLegal := legal topCard (currentSuit current) in
  let st := aiTurn_update current in
  let rest := filter (fun x => id x <> id c) (aiHand current) in
  (rank c <> R8 ->
   Forall (fun x => ~ (isLegal x /\ rank x <> R8)) before ->
   aiHand st = rest /\ discardPile st = discardPile current ++ [c]
   /\ currentSuit st = None /\ turn st = player)
  /\ (Forall (fun x => isLegal x -> rank x = R8) (aiHand current) ->
      Forall (fun x => ~ isLegal x) before ->
      exists s,
        aiHand st = rest /\ discardPile st = discardPile current ++ [c]
        /\ currentSuit st = Some s /\ turn st = player
        /\ forall s',
             restCount (aiHand current) c s' <= restCount (aiHand current) c s
             /\ (restCount (aiHand current) c s' = restCount (aiHand current) c s ->
                 keyIndex s' <= keyIndex s)).
Proof.
  intros Hs Ht Htop Hhand Hc isLegal st rest. split.
  - intros Hr Hb.
    destruct (aiTurn_update_play current topCard c Hs Ht Htop) as (_ & _ & H1 & H2 & H3 & H4 & _).
    { rewrite Hhand. by apply cardToPlayOf_nonEight. }
    rewrite bool_decide_eq_false_2 in H3 by done. auto.
  - intros Hall Hb.
    destruct (aiTurn_update_play current topCard c Hs Ht Htop) as (_ & _ & H1 & H2 & H3 & H4 & _).
    { rewrite Hhand. apply cardToPlayOf_eight; try done. by rewrite <- Hhand. }
    assert (H8 : rank c = R8).
    { rewrite Forall_forall in Hall. apply Hall; [|done].
      rewrite Hhand. apply elem_of_app. right. by left. }
    rewrite bool_decide_eq_true_2 in H3 by done.
    eexists. repeat split; try eassumption; rewrite countSuits_eq;
      apply (bestSuitOf_max_fun (restCount (aiHand current) c) s').
Qed.

(** ** Drawing *)

(** A reshuffle touches the two piles and the message only. *)
Lemma reshuffle_frame (prev : GameState) (g : Rng) :
  let st := fst (reshuffleIfNeeded prev g) in
  playerHand st = playerHand prev
  /\ aiHand st = aiHand prev
  /\ turn st = turn prev
  /\ status st = status prev
  /\ currentSuit st = currentSuit prev
  /\ winner st = winner prev
  /\ top (discardPile st) = top (discardPile prev).
Proof.
  unfold reshuffleIfNeeded.
  destruct (_ || _); [done|].
  destruct (top (discardPile prev)) as [topCard|] eqn:Htop; [|done].
  unfold bind, ret. destruct (shuffle _ g) as [newDeck g']. done.
Qed.

(** On the player's turn a click on the draw pile is [drawCard('player')]. *)
Lemma clickDeck_draws (app : App) (g : Rng) :
  turn (state app) = player -> status (state app) = playing ->
  clickDeck app g =
  (let (st, g') := drawCard player (state app) g in
   ({| state := st; pendingEightCard := pendingEightCard app |}, g')).
Proof.
  intros Ht Hs. unfold clickDeck, bind, ret. rewrite Ht, Hs.
  by rewrite !bool_decide_eq_true_2.
Qed.

(** C8. A draw that succeeds takes the last card of the draw pile and
    appends it to the hand of the player who draws.  That player keeps the
    turn exactly when [canPlay] accepts the drawn card against the top
    discard card and the suit override; otherwise the turn goes to the
    other player.  This holds for [drawCard] and for the draw branch of the
    automated turn, before and after the reshuffle that follows. *)
Theorem draw_spec (prev : GameState) (newDeck : list Card) (drawnCard : Card) (g : Rng) :
  deck prev = newDeck ++ [drawnCard] ->
  let playable := canPlay (Some drawnCard) (top (discardPile prev)) (currentSuit prev) in
  (forall p : Player,
      turn prev = p ->
      let st := fst (drawCard p prev g) in
      let other := match p with player => ai | ai => player end in
      deck (drawCard_update p prev) = newDeck
      /\ (if bool_decide (p = player) then playerHand st else aiHand st) =
          (if bool_decide (p = player) then playerHand prev else aiHand prev) ++ [drawnCard]
      /\ (if bool_decide (p = player) then aiHand st else playerHand st) =
          (if bool_decide (p = player) then aiHand prev else playerHand prev)
      /\ (turn st = turn prev <-> playable = true)
      /\ (playable = false -> turn st = other))
  /\ (forall topCard : Card,
        status prev = playing -> turn prev = ai ->
        top (discardPile prev) = Some topCard ->
        playableCards (aiHand prev) topCard (currentSuit prev) = [] ->
        let st := fst (aiTurn prev g) in
        deck (aiTurn_update prev) = newDeck
        /\ aiHand st = aiHand prev ++ [drawnCard]
        /\ playerHand st = playerHand prev
        /\ (turn st = turn prev <-> playable = true)
        /\ (playable = false -> turn st = player)).
Proof.
  intros Hdeck playable. split.
  - intros p Hp st other.
    assert (Hupd : drawCard_update p prev =
      {| deck := newDeck;
         playerHand := if bool_decide (p = player)
                       then playerHand prev ++ [drawnCard] else playerHand prev;
         aiHand := if bool_decide (p = player)
                   then aiHand prev else aiHand prev ++ [drawnCard];
         discardPile := discardPile prev;
         currentSuit := currentSuit prev;
         turn := if bool_decide (p = player)
                 then (if playable then player else ai)
                 else (if playable then ai else player);
         status := status prev;
         winner := winner prev;
         lastAction := who (bool_decide (p = player)) +:+ " 摸了一张牌。" |}).
    { unfold drawCard_update. rewrite Hdeck, pop_snoc, length_app. cbn [length].
      rewrite Nat.add_1_r. cbn [Nat.eqb]. by destruct (bool_decide (p = player)). }
    destruct (reshuffle_frame (drawCard_update p prev) g) as (Hph & Hah & Ht & _).
    clearbody playable.
    subst st other. unfold drawCard. rewrite Hph, Hah, Ht, Hupd. cbn.
    subst p. destruct (turn prev), playable; cbn; repeat split; done.
  - intros topCard Hs Ht Htop Hnone st.
    assert (Hupd : aiTurn_update prev =
      {| deck := newDeck;
         playerHand := playerHand prev;
         aiHand := aiHand prev ++ [drawnCard];
         discardPile := discardPile prev;
         currentSuit := currentSuit prev;
         turn := if playable then ai else player;
         status := status prev;
         winner := winner prev;
         lastAction := "AI 摸了一张牌。" |}).
    { unfold aiTurn_update. rewrite Hs, Ht, Htop, Hnone.
      rewrite !bool_decide_eq_true_2 by done. cbn [negb orb length Nat.ltb Nat.leb].
      rewrite Hdeck, pop_snoc, length_app. cbn [length].
      rewrite Nat.add_1_r. cbn [Nat.ltb Nat.leb].
      subst playable. by rewrite Htop. }
    destruct (reshuffle_frame (aiTurn_update prev) g) as (Hph & Hah & Ht' & _).
    subst st. unfold aiTurn. rewrite Hs, Ht.
    rewrite !bool_decide_eq_true_2 by done. cbn [andb].
    clearbody playable.
    rewrite Hph, Hah, Ht', Hupd. cbn.
    destruct playable; cbn; repeat split; done.
Qed.

(** ** Conservation of the cards *)

(** Removing a card from a hand by its identity and putting it elsewhere
    moves exactly that card, as long as identities are distinct. *)
Lemma filter_id_Permutation (hand : list Card) (c : Card) :
  NoDup (id <$> hand) -> c ∈ hand ->
  filter (fun x => id x <> id c) hand ++ [c] ≡ₚ hand.
Proof.
  induction hand as [|x hand IH]; intros Hnd Hin; [by apply elem_of_nil in Hin|].
  rewrite fmap_cons in Hnd. apply NoDup_cons in Hnd as [Hx Hnd].
  apply elem_of_cons in Hin as [->|Hin].
  - rewrite filter_cons_False by (intros H; by apply H).
    assert (Hall : filter (fun y => id y <> id x) hand = hand).
    { clear IH Hnd. induction hand as [|y hand IH]; [done|].
      rewrite filter_cons_True.
      - f_equal. apply IH. intros H. apply Hx. rewrite fmap_cons. by right.
      - intros Heq. apply Hx. rewrite fmap_cons, Heq. by left. }
    rewrite Hall. by rewrite Permutation_app_comm.
  - rewrite filter_cons_True.
    + simpl. by rewrite IH.
    + intros Heq. apply Hx. rewrite Heq. apply list_elem_of_fmap. eauto.
Qed.





Lemma checkWinner_zones (st : GameState) : zones (checkWinner st) = zones st.
Proof.
  unfold checkWinner.
  destruct (bool_decide _); [|done].
  destruct (length (playerHand st) =? 0); [done|].
  by destruct (length (aiHand st) =? 0).
Qed.

Lemma cardToPlayOf_elem (playable : list Card) (c : Card) :
  cardToPlayOf playable = Some c -> c ∈ playable.
Proof.
  unfold cardToPlayOf. destruct (find _ playable) as [x|] eqn:E.
  - intros [= ->]. apply find_some in E as [Hin _]. by apply list_elem_of_In.
  - apply list_elem_of_lookup_2.
Qed.








Lemma drawCard_update_status (p : Player) (st : GameState) :
  status (drawCard_update p st) = status st.
Proof.
  unfold drawCard_update. destruct (_ =? _); [done|].
  by destruct (pop (deck st)) as [[drawn|] newDeck].
Qed.

Lemma aiTurn_update_status (st : GameState) :
  status (aiTurn_update st) = status st.
Proof.
  unfold aiTurn_update.
  destruct (_ || _); [done|].
  destruct (top (discardPile st)) as [topCard|]; [|done].
  destruct (0 <? length (playableCards _ _ _)).
  - destruct (cardToPlayOf _) as [c|]; [|done].
    by destruct (bool_decide (rank c = R8)).
  - destruct (0 <? length (deck st)); [|done].
    by destruct (pop (deck st)) as [[drawn|] newDeck].
Qed.

Lemma initGame_status (g : Rng) : status (fst (initGame g)) = playing.
Proof.
  destruct initGame_deal with (g := g) as (fullDeck & g' & _ & _ & Hlen & ->).
  cbn [fst]. apply deal_spec. lia.
Qed.



(** ** Runs *)

Lemma step_unmounted (e : Event) (ui : App * ModalSlot) (g : Rng) :
  mounted e (snd ui) = false -> step e ui g = (ui, g).
Proof. intros H. unfold step. by rewrite H. Qed.

(** What a handled event leaves: the component after the handler, and the
    modal of the next render. *)
Lemma step_mounted (e : Event) (ui : App * ModalSlot) (g : Rng) :
  mounted e (snd ui) = true ->
  step e ui g =
  (fst (dispatch e (fst ui) g),
   render (fst (dispatch e (fst ui) g))
          (match e with AnimationEnd => noModal | _ => snd ui end),
   snd (dispatch e (fst ui) g)).
Proof.
  intros H. unfold step, bind, ret. rewrite H.
  by destruct (dispatch e (fst ui) g).
Qed.

(** A property that every event keeps holds after every run. *)
Lemma run_from_keeps (P : App * ModalSlot -> Prop) :
  (forall e ui g, P ui -> P (fst (step e ui g))) ->
  forall es ui g, P ui -> P (fst (run_from es ui g)).
Proof.
  intros Hstep es. induction es as [|e es IH]; intros ui g Hui; [done|].
  cbn [run_from]. unfold bind.
  pose proof (Hstep e ui g Hui) as H.
  destruct (step e ui g) as [ui' g']. by apply IH.
Qed.


Lemma run_run_from (es : list Event) (app : App) (g : Rng) :
  fst (run es app g) = fst (fst (run_from es (app, render app noModal) g)).
Proof.
  unfold run, bind, ret. by destruct (run_from es _ g) as [ui g'].
Qed.

(** While a suit is asked for, the suit buttons on the screen are those
    of the last render. *)
Lemma render_suitModal (app : App) (m : ModalSlot) :
  status (state app) = suit_selection ->
  suitModal (render app m) = Some (pendingEightCard app).
Proof. intros Hs. unfold render. by rewrite Hs. Qed.

(** Otherwise, if there are suit buttons, they are those that were there. *)
Lemma render_suitModal_other (app : App) (m : ModalSlot) (rendered : option Card) :
  status (state app) <> suit_selection ->
  suitModal (render app m) = Some rendered -> suitModal m = Some rendered.
Proof. intros Hs. unfold render. by destruct (status (state app)). Qed.

Lemma mounted_suitModal (rendered : option Card) (s : Suit) (m : ModalSlot) :
  mounted (ClickSuit rendered s) m = true -> suitModal m = Some rendered.
Proof. cbn. intros ->%bool_decide_eq_true. done. Qed.









(** ** A wild card played by the player *)

(** C3, as the code has it.  When the player plays an 8 that is accepted,
    [handlePlayerPlay] only records the card as pending and sets the status
    to [suit_selection]: the hands, the piles, the suit override and the
    turn stay as they were.  The choice of a suit then removes the card
    from the player's hand, appends it to the discard pile, sets the
    override to the suit chosen, gives the turn to the automated player and
    sets the status back to [playing]. *)
Theorem human_wild_play (card topCard : Card) (app : App) :
  turn (state app) = player -> status (state app) = playing ->
  top (discardPile (state app)) = Some topCard ->
  rank card = R8 ->
  let app1 := handlePlayerPlay card app in
  app1 = {| state := with_status suit_selection (state app); pendingEightCard := Some card |}
  /\ playerHand (state app1) = playerHand (state app)
  /\ discardPile (state app1) = discardPile (state app)
  /\ currentSuit (state app1) = currentSuit (state app)
  /\ turn (state app1) = player
  /\ status (state app1) = suit_selection
  /\ forall s : Suit,
       let app2 := handleSuitSelect s app1 in
       playerHand (state app2) = filter (fun c => id c <> id card) (playerHand (state app))
       /\ aiHand (state app2) = aiHand (state app)
       /\ deck (state app2) = deck (state app)
       /\ discardPile (state app2) = discardPile (state app) ++ [card]
       /\ currentSuit (state app2) = Some s
       /\ turn (state app2) = ai
       /\ status (state app2) = playing
       /\ pendingEightCard app2 = None.
Proof.
  intros Ht Hs Htop H8 app1.
  assert (H1 : app1 =
    {| state := with_status suit_selection (state app); pendingEightCard := Some card |}).
  { subst app1. unfold handlePlayerPlay. rewrite Ht, Hs, Htop.
    rewrite !bool_decide_eq_true_2 by done. cbn [negb orb].
    unfold canPlay. rewrite !bool_decide_eq_true_2 by done. done. }
  rewrite H1. cbn. repeat split; done.
Qed.

(** ** Drawing from an empty pile *)

(** C4, as the code has it.  When the automated player is to move, holds no
    card that can be played and the draw pile is empty, it draws nothing
    and the turn goes to the player.  [reshuffleIfNeeded] runs after this
    pass, not before it. *)
Theorem ai_forced_pass (current : GameState) (topCard : Card) (g : Rng) :
  status current = playing -> turn current = ai ->
  top (discardPile current) = Some topCard ->
  playableCards (aiHand current) topCard (currentSuit current) = [] ->
  deck current = [] ->
  let passed := aiTurn_update current in
  deck passed = []
  /\ aiHand passed = aiHand current
  /\ playerHand passed = playerHand current
  /\ discardPile passed = discardPile current
  /\ turn passed = player
  /\ aiTurn current g = reshuffleIfNeeded passed g
  /\ aiHand (fst (aiTurn current g)) = aiHand current
  /\ playerHand (fst (aiTurn current g)) = playerHand current
  /\ turn (fst (aiTurn current g)) = player.
Proof.
  intros Hs Ht Htop Hnone Hdeck passed.
  assert (Hp : passed =
    {| deck := deck current; playerHand := playerHand current; aiHand := aiHand current;
       discardPile := discardPile current; currentSuit := currentSuit current;
       turn := player; status := status current; winner := winner current;
       lastAction := "AI 跳过了（没有可摸的牌）" |}).
  { subst passed. unfold aiTurn_update. rewrite Hs, Ht, Htop, Hnone, Hdeck.
    rewrite !bool_decide_eq_true_2 by done. done. }
  assert (Hrun : aiTurn current g = reshuffleIfNeeded passed g).
  { unfold aiTurn. rewrite Hs, Ht. by rewrite !bool_decide_eq_true_2. }
  destruct (reshuffle_frame passed g) as (Hph & Hah & Htn & _).
  rewrite Hrun, Hph, Hah, Htn, Hp. cbn. by rewrite Hdeck.
Qed.

(** ** Win detection *)

Lemma render_render (app : App) (m : ModalSlot) :
  render app (render app m) = render app m.
Proof. unfold render. by destruct (status (state app)). Qed.

Lemma step_settled (e : Event) (ui : App * ModalSlot) (g : Rng) :
  settled ui -> settled (fst (step e ui g)).
Proof.
  intros Hui.
  destruct (mounted e (snd ui)) eqn:Hmt; [|by rewrite step_unmounted].
  rewrite step_mounted by done. apply render_render.
Qed.

Lemma run_from_settled (es : list Event) (ui : App * ModalSlot) (g : Rng) :
  settled ui -> settled (fst (run_from es ui g)).
Proof. apply run_from_keeps. apply step_settled. Qed.

Lemma run_from_app (es es' : list Event) (ui : App * ModalSlot) (g : Rng) :
  run_from (es ++ es') ui g =
  run_from es' (fst (run_from es ui g)) (snd (run_from es ui g)).
Proof.
  revert ui g. induction es as [|e es IH]; intros ui g; [done|].
  cbn [app run_from]. unfold bind.
  destruct (step e ui g) as [ui' g']. apply IH.
Qed.

(** When the game is over its modal is the one mounted, and no move of
    the game does anything: the handlers of the hand, of the draw pile,
    of the timer and of the winner check test the status, and the suit
    buttons are not on the screen. *)
Lemma step_game_over (e : Event) (ui : App * ModalSlot) (g : Rng) :
  settled ui -> status (state (fst ui)) = game_over -> gameMove e = true ->
  step e ui g = (ui, g).
Proof.
  destruct ui as [[st pending] m]. unfold settled. cbn [fst snd state].
  set (app := {| state := st; pendingEightCard := pending |}).
  intros Hm Hs He.
  assert (Hplay : forall card, handlePlayerPlay card app = app).
  { intros card. unfold handlePlayerPlay. cbn [state app]. rewrite Hs.
    by rewrite orb_true_r. }
  assert (Hsame : mounted e m = true -> dispatch e app g = (app, g) ->
                  step e (app, m) g = (app, m, g)).
  { intros Hmt Hd. rewrite step_mounted by done. cbn [fst snd]. rewrite Hd. cbn [fst snd].
    assert (Hr : render app (match e with AnimationEnd => noModal | _ => m end) = m)
      by (by destruct e).
    by rewrite Hr. }
  destruct e; try discriminate.
  - apply Hsame; [done|]. cbn [dispatch].
    destruct (playerHand (state app) !! i) as [card|]; [|done]. by rewrite Hplay.
  - apply Hsame; [done|]. cbn [dispatch]. unfold clickDeck. cbn [state app].
    by rewrite Hs, andb_false_r.
  - apply step_unmounted. cbn [mounted snd]. rewrite <- Hm. unfold render.
    cbn [state app]. rewrite Hs. by apply bool_decide_eq_false_2.
  - apply Hsame; [done|]. cbn [dispatch].
    unfold on_state, aiTurn, bind, ret. cbn [state pendingEightCard app]. by rewrite Hs.
  - apply Hsame; [done|]. cbn [dispatch].
    unfold on_state, checkWinner, bind, ret. cbn [state pendingEightCard app]. by rewrite Hs.
Qed.

(** C9. While the status is [playing], the winner check ends the game for
    the player when the player's hand is empty, and otherwise for the
    automated player when its hand is empty.  In the status [game_over]
    the handlers of the hand and of the draw pile, the automated turn and
    the winner check leave the component as it is.  And once a run of the
    component has reached the status [game_over], a further move of the
    game changes nothing: a click on a card, a click on the draw pile, a
    click on a suit button, the automated turn and the winner check leave
    the component as it is and call [Math.random()] not once.  For the
    suit buttons, whose handler tests no status, this is because none is
    mounted then: the modal of the finished game has taken the place of
    the suit modal. *)
Theorem win_detection :
  (forall st : GameState,
      status st = playing -> playerHand st = [] ->
      status (checkWinner st) = game_over /\ winner (checkWinner st) = Some player)
  /\ (forall st : GameState,
        status st = playing -> playerHand st <> [] -> aiHand st = [] ->
        status (checkWinner st) = game_over /\ winner (checkWinner st) = Some ai)
  /\ (forall (app : App) (g : Rng),
        status (state app) = game_over ->
        (forall card, handlePlayerPlay card app = app)
        /\ (forall i, dispatch (ClickCard i) app g = (app, g))
        /\ dispatch ClickDeck app g = (app, g)
        /\ dispatch AiTimer app g = (app, g)
        /\ dispatch WinnerEffect app g = (app, g))
  /\ (forall (app : App) (es : list Event) (e : Event) (g : Rng),
        status (state (fst (run es app g))) = game_over ->
        gameMove e = true ->
        run (es ++ [e]) app g = run es app g).
Proof.
  split; [|split; [|split]].
  - intros st Hs Hp. unfold checkWinner. rewrite Hs, Hp. done.
  - intros st Hs Hp Ha. unfold checkWinner. rewrite Hs, Ha.
    destruct (playerHand st); done.
  - intros [st pending] g Hs. cbn [state] in Hs.
    assert (Hplay : forall card,
      handlePlayerPlay card {| state := st; pendingEightCard := pending |}
      = {| state := st; pendingEightCard := pending |}).
    { intros card. unfold handlePlayerPlay. cbn [state]. rewrite Hs.
      by rewrite orb_true_r. }
    split; [done|]. split; [|split; [|split]].
    + intros i. cbn [dispatch state]. destruct (playerHand st !! i); [|done].
      by rewrite Hplay.
    + cbn [dispatch]. unfold clickDeck. cbn [state]. rewrite Hs.
      by rewrite andb_false_r.
    + cbn [dispatch]. unfold on_state, aiTurn, bind, ret. cbn [state]. by rewrite Hs.
    + cbn [dispatch]. unfold on_state, checkWinner, bind, ret. cbn [state pendingEightCard].
      by rewrite Hs.
  - intros app es e g Hs He. rewrite run_run_from in Hs.
    pose proof (run_from_settled es (app, render app noModal) g (render_render app noModal))
      as Hset.
    unfold run, bind, ret. rewrite run_from_app.
    destruct (run_from es (app, render app noModal) g) as [ui g']. cbn [fst snd] in *.
    cbn [run_from]. unfold bind, ret.
    by rewrite step_game_over.
Qed.

(** ** The statements above at concrete inputs *)

Lemma reshuffleIfNeeded_spec_witness :
  (length (discardPile (state ex_stuck)) <= 1
   /\ reshuffleIfNeeded (state ex_stuck) g0 = (state ex_stuck, g0))
  /\ (length (deck ex_ai_empty) <= 2 /\ 1 < length (discardPile ex_ai_empty)
      /\ exists restOfDiscard topCard,
           discardPile ex_ai_empty = restOfDiscard ++ [topCard]
           /\ discardPile (fst (reshuffleIfNeeded ex_ai_empty g0)) = [topCard]
           /\ (id <$> top (discardPile (fst (reshuffleIfNeeded ex_ai_empty g0)))) =
                (id <$> top (discardPile ex_ai_empty))
           /\ deck (fst (reshuffleIfNeeded ex_ai_empty g0)) ≡ₚ deck ex_ai_empty ++ restOfDiscard).
Proof.
  split.
  - split; [simpl; lia|].
    apply (proj1 (reshuffleIfNeeded_spec (state ex_stuck) g0)). right. simpl. lia.
  - split; [simpl; lia|]. split; [simpl; lia|].
    apply (proj2 (reshuffleIfNeeded_spec ex_ai_empty g0)); simpl; lia.
Defined.

Lemma initGame_spec_witness :
  16 < length ex_deck
  /\ length (playerHand (deal ex_deck)) = 8
  /\ length (aiHand (deal ex_deck)) = 8
  /\ status (deal ex_deck) = playing.
Proof.
  assert (H : 16 < length ex_deck) by (vm_compute; lia).
  split; [exact H|].
  destruct (proj2 initGame_spec ex_deck H) as (_ & _ & Hp & Ha & _ & _ & Hs & _).
  exact (conj Hp (conj Ha Hs)).
Defined.

Lemma ai_policy_witness :
  (aiHand (aiTurn_update ex_ai_fives) = [mkCard R8 diamonds; mkCard R5 clubs]
   /\ discardPile (aiTurn_update ex_ai_fives) = [mkCard R5 spades; mkCard R5 hearts]
   /\ currentSuit (aiTurn_update ex_ai_fives) = None
   /\ turn (aiTurn_update ex_ai_fives) = player)
  /\ exists s,
      aiHand (aiTurn_update ex_ai_eight) = [mkCard R2 hearts; mkCard R3 clubs]
      /\ discardPile (aiTurn_update ex_ai_eight) = [mkCard RK spades; mkCard R8 diamonds]
      /\ currentSuit (aiTurn_update ex_ai_eight) = Some s
      /\ turn (aiTurn_update ex_ai_eight) = player
      /\ forall s',
           restCount (aiHand ex_ai_eight) (mkCard R8 diamonds) s'
           <= restCount (aiHand ex_ai_eight) (mkCard R8 diamonds) s
           /\ (restCount (aiHand ex_ai_eight) (mkCard R8 diamonds) s'
               = restCount (aiHand ex_ai_eight) (mkCard R8 diamonds) s ->
               keyIndex s' <= keyIndex s).
Proof.
  split.
  - apply (ai_policy ex_ai_fives (mkCard R5 spades) (mkCard R5 hearts)
             [mkCard R8 diamonds] [mkCard R5 clubs]); try reflexivity.
    + discriminate.
    + repeat constructor. intros [_ H]. apply H. reflexivity.
  - apply (ai_policy ex_ai_eight (mkCard RK spades) (mkCard R8 diamonds)
             [mkCard R2 hearts] [mkCard R3 clubs]); try reflexivity.
    + repeat (constructor;
              [intros H; try reflexivity; try (vm_compute in H; discriminate H)|]).
      constructor.
    + constructor; [intros H; vm_compute in H; discriminate H|constructor].
Defined.

Lemma draw_spec_witness :
  deck (state ex_wild) = [mkCard R2 diamonds] ++ [mkCard R9 clubs]
  /\ playerHand (fst (drawCard player (state ex_wild) g0))
     = playerHand (state ex_wild) ++ [mkCard R9 clubs]
  /\ turn (fst (drawCard player (state ex_wild) g0)) = turn (state ex_wild).
Proof.
  split; [reflexivity|].
  destruct (draw_spec (state ex_wild) [mkCard R2 diamonds] (mkCard R9 clubs) g0 eq_refl)
    as [H _].
  destruct (H player eq_refl) as (_ & Hhand & _ & Hturn & _).
  split; [exact Hhand|]. apply Hturn. reflexivity.
Defined.


Lemma win_detection_witness :
  (status ex_last_card = playing
   /\ status (checkWinner ex_last_card) = game_over
   /\ winner (checkWinner ex_last_card) = Some player)
  /\ (status (state (fst (run ex_run_over ex_start g0))) = game_over
      /\ run ex_run_late_click ex_start g0 = run ex_run_over ex_start g0).
Proof.
  destruct win_detection as (Hplayer & _ & _ & Hover).
  split.
  - split; [reflexivity|]. apply Hplayer; reflexivity.
  - assert (H : status (state (fst (run ex_run_over ex_start g0))) = game_over)
      by (vm_compute; reflexivity).
    split; [exact H|].
    exact (Hover ex_start ex_run_over (ClickSuit (Some (mkCard R8 clubs)) spades) g0
             H eq_refl).
Defined.

Lemma human_wild_play_witness :
  turn (state ex_wild) = player
  /\ status (state ex_wild) = playing
  /\ handlePlayerPlay (mkCard R8 hearts) ex_wild =
     {| state := with_status suit_selection (state ex_wild);
        pendingEightCard := Some (mkCard R8 hearts) |}.
Proof.
  split; [reflexivity|]. split; [reflexivity|].
  apply (human_wild_play (mkCard R8 hearts) (mkCard R8 diamonds) ex_wild); reflexivity.
Defined.

Lemma ai_forced_pass_witness :
  deck ex_ai_empty = []
  /\ playableCards (aiHand ex_ai_empty) (mkCard R5 diamonds) (currentSuit ex_ai_empty) = []
  /\ aiHand (fst (aiTurn ex_ai_empty g0)) = aiHand ex_ai_empty
  /\ turn (fst (aiTurn ex_ai_empty g0)) = player.
Proof.
  split; [reflexivity|]. split; [reflexivity|].
  destruct (ai_forced_pass ex_ai_empty (mkCard R5 diamonds) g0
              eq_refl eq_refl eq_refl eq_refl eq_refl)
    as (_ & _ & _ & _ & _ & _ & Hhand & _ & Hturn).
  exact (conj Hhand Hturn).
Defined.

(** ** Where the code departs from the specification *)

(** C3 as the specification states it fails: after the player has played
    8♥, which is accepted, the card is still in the hand, the discard pile
    has not grown and the suit override is still set. *)
Lemma human_wild_play_counterexample :
  let card := mkCard R8 hearts in
  let app' := handlePlayerPlay card ex_wild in
  canPlay (Some card) (top (discardPile (state ex_wild))) (currentSuit (state ex_wild)) = true
  /\ status (state app') = suit_selection
  /\ playerHand (state app') <> filter (fun c => id c <> id card) (playerHand (state ex_wild))
  /\ card ∈ playerHand (state app')
  /\ discardPile (state app') <> discardPile (state ex_wild) ++ [card]
  /\ currentSuit (state app') <> None.
Proof.
  cbv zeta. repeat split; try reflexivity; try (vm_compute; discriminate).
  vm_compute. left.
Qed.

(** C4 as the specification states it fails.  With an empty draw pile that
    a reshuffle cannot refill, a draw by the player changes nothing: the
    turn stays with the player.  And the automated player passes on an
    empty draw pile although the reshuffle, which runs afterwards, refills
    it. *)
Lemma empty_pile_counterexample :
  (deck (state ex_stuck) = []
   /\ fst (reshuffleIfNeeded (state ex_stuck) g0) = state ex_stuck
   /\ fst (clickDeck ex_stuck g0) = ex_stuck
   /\ fst (drawCard player (state ex_stuck) g0) = state ex_stuck
   /\ turn (state (fst (clickDeck ex_stuck g0))) <> ai)
  /\ (deck ex_ai_empty = []
      /\ deck (fst (reshuffleIfNeeded ex_ai_empty g0)) <> []
      /\ aiHand (fst (aiTurn ex_ai_empty g0)) = aiHand ex_ai_empty
      /\ turn (fst (aiTurn ex_ai_empty g0)) = player
      /\ deck (fst (aiTurn ex_ai_empty g0)) <> []).
Proof.
  repeat split; try reflexivity; vm_compute; discriminate.
Qed.

(** ** Scenarios *)

(** The player holds 8♥ and 5♣ and plays the 8; the choice of clubs then
    sets the override to clubs and gives the turn to the automated player. *)
Example wild_then_clubs :
  let app2 := handleSuitSelect clubs (handlePlayerPlay (mkCard R8 hearts) ex_wild) in
  playerHand (state app2) = [mkCard R5 clubs]
  /\ top (discardPile (state app2)) = Some (mkCard R8 hearts)
  /\ currentSuit (state app2) = Some clubs
  /\ turn (state app2) = ai
  /\ status (state app2) = playing.
Proof. repeat split. Qed.

(** With 5♠ on top the automated player prefers 5♥ to the 8♦ it holds
    before it. *)
Example fives_before_eight :
  top (discardPile (aiTurn_update ex_ai_fives)) = Some (mkCard R5 hearts)
  /\ currentSuit (aiTurn_update ex_ai_fives) = None.
Proof. split; reflexivity. Qed.

(** One heart and one club are left: the tie goes to clubs, the later key. *)
Example tie_goes_to_later_suit :
  currentSuit (aiTurn_update ex_ai_eight) = Some clubs.
Proof. reflexivity. Qed.

(** With no card left besides the 8 every count is zero, and spades, the
    last key, is nominated. *)
Example all_zero_nominates_spades :
  bestSuitOf (countSuits [mkCard R8 diamonds] (mkCard R8 diamonds)) = spades.
Proof. reflexivity. Qed.

(** A draw pile of one card and a discard pile of three: after the draw the
    reshuffle fires, and the top discard card stays. *)
Example draw_then_reshuffle :
  let prev :=
    {| deck := [mkCard R9 clubs];
       playerHand := [mkCard RK spades];
       aiHand := [mkCard R2 hearts];
       discardPile := [mkCard R3 diamonds; mkCard R4 diamonds; mkCard R5 diamonds];
       currentSuit := None; turn := player; status := playing; winner := None;
       lastAction := "" |} in
  let st := fst (drawCard player prev g0) in
  playerHand st = [mkCard RK spades; mkCard R9 clubs]
  /\ discardPile st = [mkCard R5 diamonds]
  /\ length (deck st) = 2
  /\ turn st = ai.
Proof. repeat split. Qed.

(** A deal whose remainder holds only 8s starts the discard pile with the
    first of them. *)
Example deal_all_wild_remainder :
  discardPile (deal ex_deck) = [mkCard R8 hearts]
  /\ deck (deal ex_deck) = [mkCard R8 diamonds].
Proof. split; reflexivity. Qed.

(** From the deal of [g0] the player plays 8♣ and clicks two suit buttons
    of the same modal, hearts and then spades.  The second click comes
    when the status is [playing] again: 8♣ is on the discard pile twice
    and the four zones hold 53 cards. *)
Example suit_button_clicked_twice :
  let st := state (fst (run ex_run_twice ex_start g0)) in
  inPhase ex_run_twice (ex_start, render ex_start noModal) g0 = false
  /\ discardPile st = [mkCard R5 spades; mkCard R8 clubs; mkCard R8 clubs]
  /\ length (zones st) = 53
  /\ currentSuit st = Some spades
  /\ turn st = ai
  /\ status st = playing.
Proof. cbv zeta. vm_compute. repeat split. Qed.

(** The handler of a suit button of the render of the moment is
    [handleSuitSelect] on the component as it is. *)
Example suitButton_of_the_moment (s : Suit) (app : App) :
  suitButton (pendingEightCard app) s app = handleSuitSelect s app.
Proof. reflexivity. Qed.

(** A game dealt from [g0]: 8, 8, 35 and 1 cards. *)
Example dealt_sizes :
  let st := fst (initGame g0) in
  (length (playerHand st), length (aiHand st), length (deck st), length (discardPile st))
  = (8, 8, 35, 1).
Proof. vm_compute. reflexivity. Qed.

(** * Further properties of the code *)

(** ** The shuffle *)

Lemma shuffle_loop_rng (i : nat) (a : list Card) (g : Rng) (n : nat) :
  snd (shuffle_loop i a g) n = g (i + n).
Proof.
  revert a g. induction i as [|i IH]; intros a g; [done|].
  cbn [shuffle_loop]. unfold bind, random. rewrite IH. done.
Qed.

(** X1. [shuffle] returns the cards it was given, each as often as before,
    in a list of the same length, whatever the random source returns. *)
Theorem shuffle_same_cards (d : list Card) (g : Rng) :
  fst (shuffle d g) ≡ₚ d
  /\ length (fst (shuffle d g)) = length d
  /\ forall c, c ∈ fst (shuffle d g) <-> c ∈ d.
Proof.
  pose proof (shuffle_Permutation d g) as Hp. split; [done|]. split.
  - by apply Permutation_length.
  - intros c. by rewrite Hp.
Qed.

(** X2. [shuffle] calls [Math.random()] once for every element but one:
    after it the random source stands [length d - 1] calls further.  A
    list of at most one element comes back as it is, with no call. *)
Theorem shuffle_random_calls (d : list Card) (g : Rng) :
  (forall n, snd (shuffle d g) n = g (length d - 1 + n))
  /\ (length d <= 1 -> shuffle d g = (d, g)).
Proof.
  split.
  - intros n. apply shuffle_loop_rng.
  - intros Hd. unfold shuffle.
    replace (length d - 1) with 0 by lia. done.
Qed.

Lemma swap_app_l (l r : list Card) (i j : nat) :
  i < length l -> j < length l -> swap (l ++ r) i j = swap l i j ++ r.
Proof.
  intros Hi Hj. unfold swap. rewrite !lookup_app_l by done.
  destruct (l !! i) as [ai|]; [|done]. destruct (l !! j) as [aj|]; [|done].
  rewrite insert_app_l by done.
  rewrite insert_app_l by (by rewrite length_insert). done.
Qed.

(** The loop entered at [i] leaves the elements after position [i] alone. *)
Lemma shuffle_loop_app (i : nat) (l r : list Card) (g : Rng) :
  i < length l ->
  fst (shuffle_loop i (l ++ r) g) = fst (shuffle_loop i l g) ++ r.
Proof.
  revert l g. induction i as [|i IH]; intros l g Hi; [done|].
  cbn [shuffle_loop]. unfold bind, random.
  pose proof (floor_mul_lt (g 0) (S i + 1)) as Hj.
  rewrite swap_app_l by lia.
  apply IH. rewrite swap_length. lia.
Qed.

(** A number of at most 53 digits followed by 27 zeros is a double. *)
Lemma round53_exact (a : N) : (a < 2 ^ 53 -> round53 (a * 2 ^ 27) = a * 2 ^ 27)%N.
Proof.
  intros Ha. unfold round53.
  destruct (N.leb_spec (N.size (a * 2 ^ 27)) 53) as [Hd|Hd]; [done|].
  set (n := (a * 2 ^ 27)%N) in *.
  assert (Hsz : (N.size n <= 80)%N).
  { destruct (N.le_gt_cases (N.size n) 80) as [H|H]; [done|exfalso].
    pose proof (N.size_le n) as Hle.
    assert (2 ^ 81 <= 2 ^ N.size n)%N by (apply N.pow_le_mono_r; lia).
    assert (n < 2 ^ 80)%N by (unfold n; change (2 ^ 80)%N with (2 ^ 53 * 2 ^ 27)%N; nia).
    change (2 ^ 81)%N with (2 * 2 ^ 80)%N in *. lia. }
  set (s := (N.size n - 53)%N).
  assert (Hn : n = (a * 2 ^ (27 - s) * 2 ^ s)%N).
  { unfold n. rewrite <- N.mul_assoc, <- N.pow_add_r. do 2 f_equal. lia. }
  assert (Hs0 : (2 ^ s <> 0)%N) by (apply N.pow_nonzero; lia).
  assert (Hh : (2 ^ (s - 1) <> 0)%N) by (apply N.pow_nonzero; lia).
  assert (Hr : (n mod 2 ^ s = 0)%N) by (rewrite Hn; by apply N.Div0.mod_mul).
  assert (Hq : (n / 2 ^ s = a * 2 ^ (27 - s))%N) by (rewrite Hn at 1; by apply N.div_mul).
  rewrite Hr, Hq.
  destruct (N.ltb_spec (2 ^ (s - 1)) 0) as [H|_]; [lia|].
  destruct (N.eqb_spec 0 (2 ^ (s - 1))) as [H|_]; [lia|].
  cbn [orb andb]. by rewrite <- Hn.
Qed.

Lemma floor_mul_sampleFor (i j : nat) :
  (N.of_nat i < 2 ^ 26)%N -> j <= i -> floor_mul (sampleFor i j) (i + 1) = j.
Proof.
  intros Hi Hj. unfold floor_mul, significand, scale, sampleFor. cbn [mant expo].
  set (J := N.of_nat j). set (I := N.of_nat i).
  replace (N.of_nat (i + 1)) with (I + 1)%N by lia.
  set (c := ((J * 2 ^ 26 + I) / (I + 1))%N).
  assert (HJ : (J <= I)%N) by lia.
  pose proof (N.Div0.mul_div_le (J * 2 ^ 26 + I) (I + 1)) as Hlo.
  pose proof (N.mul_succ_div_gt (J * 2 ^ 26 + I) (I + 1)) as Hhi.
  fold c in Hlo, Hhi. rewrite <- N.add_1_r in Hhi.
  assert (Hhi' : (J * 2 ^ 26 + I < (I + 1) * (c + 1))%N) by (apply Hhi; lia).
  clear Hhi.
  set (T := (2 ^ 26)%N) in *.
  assert (HT : T = 67108864%N) by reflexivity.
  assert (Hc : (c < T)%N) by nia.
  change (2 ^ 27)%N with (2 * T)%N. change (2 ^ 53)%N with (2 * T * T)%N.
  change (N.min 0 1021) with 0%N. change (2 ^ (53 + 0))%N with (2 * T * T)%N.
  rewrite N.mod_small by nia.
  replace (c * (2 * T) * (I + 1))%N with (c * (I + 1) * 2 ^ 27)%N
    by (change (2 ^ 27)%N with (2 * T)%N; lia).
  rewrite round53_exact by (change (2 ^ 53)%N with (2 * T * T)%N; nia).
  change (2 ^ 27)%N with (2 * T)%N.
  replace (2 * T * T)%N with (T * (2 * T))%N by lia.
  rewrite N.Div0.div_mul_cancel_r by lia.
  assert (c * (I + 1) / T = J)%N; [|lia].
  symmetry. apply (N.div_unique _ _ _ (c * (I + 1) - T * J)); nia.
Qed.

Lemma swap_lookup_l (a : list Card) (i j : nat) (y : Card) :
  i < length a -> a !! j = Some y -> swap a i j !! i = Some y.
Proof.
  intros Hi Hj. unfold swap.
  destruct (lookup_lt_is_Some_2 a i Hi) as [ai Hai]. rewrite Hai, Hj.
  destruct (decide (i = j)) as [->|Hne].
  - assert (ai = y) as -> by congruence.
    apply list_lookup_insert_eq. by rewrite length_insert.
  - rewrite list_lookup_insert_ne by done. by apply list_lookup_insert_eq.
Qed.

Lemma shuffle_loop_reaches (p a : list Card) :
  (N.of_nat (length a) <= 2 ^ 26)%N -> p ≡ₚ a ->
  exists g, fst (shuffle_loop (length a - 1) a g) = p.
Proof.
  revert a. induction p as [|y p IH] using rev_ind; intros a Hbound Hp.
  - apply Permutation_nil_l in Hp. subst a. exists (fun _ => sampleFor 0 0). reflexivity.
  - assert (Hlen : length a = S (length p)).
    { apply Permutation_length in Hp. rewrite length_app in Hp. simpl in Hp. lia. }
    destruct (length p) as [|m] eqn:Hm.
    { apply nil_length_inv in Hm as ->. simpl in Hp.
      apply Permutation_singleton_l in Hp. subst a. exists (fun _ => sampleFor 0 0).
      reflexivity. }
    assert (Hy : y ∈ a) by (rewrite <- Hp; apply elem_of_app; right; by left).
    apply list_elem_of_lookup in Hy as [j Hj].
    pose proof (lookup_lt_Some _ _ _ Hj) as Hjlt.
    set (b := swap a (S m) j).
    assert (Hb : b !! S m = Some y) by (apply swap_lookup_l; [lia|done]).
    assert (Hblen : length b = S (S m)) by (unfold b; rewrite swap_length; lia).
    destruct (nonempty_snoc b) as (b' & z & Hbz).
    { intros Hnil. by rewrite Hnil in Hblen. }
    assert (Hb'len : length b' = S m).
    { rewrite Hbz, length_app in Hblen. simpl in Hblen. lia. }
    assert (z = y) as ->.
    { rewrite Hbz in Hb. rewrite lookup_app_r in Hb by lia.
      rewrite Hb'len, Nat.sub_diag in Hb. by injection Hb. }
    assert (Hp' : p ≡ₚ b').
    { apply (Permutation_app_inv_r [y]). rewrite Hp, <- Hbz. unfold b.
      symmetry. apply swap_Permutation. }
    destruct (IH b') as [g' Hg']; [lia|done|].
    exists (consRng (sampleFor (S m) j) g').
    rewrite Hlen. cbn [Nat.sub]. rewrite ?Nat.sub_0_r.
    cbn [shuffle_loop]. unfold bind, random. cbn [consRng].
    rewrite floor_mul_sampleFor by lia. fold b. rewrite Hbz.
    rewrite shuffle_loop_app by lia.
    rewrite Hb'len in Hg'. cbn [Nat.sub] in Hg'. rewrite ?Nat.sub_0_r in Hg'.
    f_equal. exact Hg'.
Qed.

(** X3. Every ordering of the cards can come out of [shuffle], for a list
    of at most [2^26] cards: for each permutation of the input there is a
    sequence of doubles below 1 on which [shuffle] returns it.  The
    doubles are multiples of [2^-26], and the index drawn on them is the
    floor of the product as the double arithmetic rounds it. *)
Theorem shuffle_reaches_every_order (d p : list Card) :
  (N.of_nat (length d) <= 2 ^ 26)%N -> p ≡ₚ d -> exists g, fst (shuffle d g) = p.
Proof. apply shuffle_loop_reaches. Qed.

(** ** The deck and its identities *)

Lemma NoDup_fmap_eq (l : list Card) (c1 c2 : Card) :
  NoDup (id <$> l) -> c1 ∈ l -> c2 ∈ l -> id c1 = id c2 -> c1 = c2.
Proof.
  induction l as [|x l IH]; intros Hnd H1 H2 Heq; [by apply elem_of_nil in H1|].
  rewrite fmap_cons in Hnd. apply NoDup_cons in Hnd as [Hx Hnd].
  apply elem_of_cons in H1 as [->|H1]; apply elem_of_cons in H2 as [->|H2]; auto.
  - exfalso. apply Hx. rewrite Heq. apply list_elem_of_fmap. eauto.
  - exfalso. apply Hx. rewrite <- Heq. apply list_elem_of_fmap. eauto.
Qed.

Lemma createDeck_minted (g : Rng) : Forall minted (fst (createDeck g)).
Proof. rewrite createDeck_orderedDeck. apply orderedDeck_minted. Qed.

(** X4. In a deck of [createDeck] the identity of a card is its rank, a
    dash, its suit, a dash and a random token, and it tells the card: two
    cards of the deck with the same identity are the same card.  This does
    not depend on the tokens, which may all be equal. *)
Theorem createDeck_ids (g : Rng) :
  let d := fst (createDeck g) in
  (forall c, c ∈ d ->
     exists tok, id c = rank_str (rank c) +:+ "-" +:+ suit_str (suit c) +:+ "-" +:+ tok)
  /\ (forall c1 c2, c1 ∈ d -> c2 ∈ d -> id c1 = id c2 -> c1 = c2)
  /\ (forall c1 c2, c1 ∈ d -> c2 ∈ d -> suit c1 = suit c2 -> rank c1 = rank c2 -> c1 = c2).
Proof.
  intros d. pose proof (createDeck_minted g) as Hm. fold d in Hm.
  destruct (createDeck_standard g) as [Hnd Hk]. fold d in Hnd, Hk.
  rewrite Forall_forall in Hm. split; [|split].
  - intros c Hc. exact (Hm c Hc).
  - intros c1 c2. by apply NoDup_fmap_eq.
  - intros c1 c2 H1 H2 Hs Hr.
    destruct (Hm c1 H1) as [t1 Ht1]. destruct (Hm c2 H2) as [t2 Ht2].
    assert (Hkn : NoDup (key <$> d)).
    { rewrite Hk. compute_done. }
    destruct (proj1 (list_elem_of_lookup d c1) H1) as [i Hi].
    destruct (proj1 (list_elem_of_lookup d c2) H2) as [j Hj].
    assert (i = j) as ->.
    { apply (NoDup_lookup (key <$> d) i j (key c1)); [done| |].
      - by rewrite list_lookup_fmap, Hi.
      - rewrite list_lookup_fmap, Hj. unfold key. simpl. by rewrite Hs, Hr. }
    congruence.
Qed.

Lemma orderedDeck_rng (g : Rng) (n : nat) : snd (orderedDeck g) n = g (52 + n).
Proof. reflexivity. Qed.

Lemma orderedDeck_length (g : Rng) : length (fst (orderedDeck g)) = 52.
Proof. reflexivity. Qed.

(** X5. [createDeck] calls [Math.random()] 103 times: once for each of
    the 52 identities and 51 times in the shuffle. *)
Theorem createDeck_random_calls (g : Rng) (n : nat) :
  snd (createDeck g) n = g (103 + n).
Proof.
  unfold createDeck, bind.
  pose proof (orderedDeck_rng g) as Hr. pose proof (orderedDeck_length g) as Hl.
  destruct (orderedDeck g) as [d g1]. cbn [fst snd] in Hr, Hl.
  unfold shuffle. rewrite shuffle_loop_rng, Hl, Hr. f_equal.
Qed.

(** ** The first discard card *)

Lemma standard_NoDup_key (d : list Card) : standard d -> NoDup (key <$> d).
Proof. intros [_ Hk]. rewrite Hk. compute_done. Qed.

(** At most four cards of a full deck are 8s. *)
Lemma eights_bound (d l : list Card) (n : nat) :
  standard d -> l = drop n d -> Forall (fun x => rank x = R8) l -> length l <= 4.
Proof.
  intros Hstd -> H8.
  assert (Hnd : NoDup (key <$> drop n d)).
  { pose proof (standard_NoDup_key d Hstd) as Hk.
    rewrite <- (take_drop n d), fmap_app in Hk. by apply NoDup_app in Hk as (_ & _ & Hk). }
  rewrite <- (length_fmap key).
  change 4 with (length ((fun s => (s, R8)) <$> SUITS)).
  apply submseteq_length, NoDup_submseteq; [done|].
  intros x (c & -> & Hc)%list_elem_of_fmap.
  rewrite Forall_forall in H8. unfold key. rewrite (H8 c Hc).
  apply list_elem_of_fmap. exists (suit c). split; [done|].
  destruct (suit c); compute_done.
Qed.

(** X6. A game dealt by [initGame] never starts with an 8 on the discard
    pile: among the 36 cards left after the hands at least one is not an 8,
    so the fallback to the first remaining card is never taken.  The draw
    pile starts with 35 cards. *)
Theorem initGame_first_discard (g : Rng) :
  let st := fst (initGame g) in
  (exists c, discardPile st = [c] /\ rank c <> R8)
  /\ length (deck st) = 35
  /\ length (playerHand st) = 8
  /\ length (aiHand st) = 8.
Proof.
  destruct initGame_deal with (g := g) as (fullDeck & g' & _ & Hstd & Hlen & ->).
  cbn [fst].
  assert (H16 : 16 < length fullDeck) by lia.
  destruct (deal_spec fullDeck H16) as (_ & _ & Hp & Ha & Hrest & _).
  assert (Hrem : length (drop 16 fullDeck) = 36) by (rewrite length_drop; lia).
  destruct Hrest as [(before & c & after & Hsplit & _ & Hc & Hd & Hdeck)
                    |(H8 & _)].
  - repeat split; [by exists c| |done|done].
    rewrite Hdeck, length_app. rewrite Hsplit, length_app in Hrem. simpl in Hrem. lia.
  - exfalso.
    pose proof (eights_bound fullDeck (drop 16 fullDeck) 16 Hstd eq_refl H8). lia.
Qed.

(** ** [playCard] and the player's handlers *)

(** X7. [playCard] for a card that is in the hand of the player named,
    identities being distinct, takes exactly that card out of the hand and
    puts it on top of the discard pile; the other hand and the draw pile
    stay, the turn goes to the other player and the suit override becomes
    the suit given, or none. *)
Theorem playCard_from_hand (card : Card) (p : Player) (chosen : option Suit)
    (st : GameState) :
  NoDup (id <$> handOf p st) -> card ∈ handOf p st ->
  let st' := playCard card p chosen st in
  handOf p st' ++ [card] ≡ₚ handOf p st
  /\ S (length (handOf p st')) = length (handOf p st)
  /\ (card ∉ handOf p st')
  /\ handOf (otherPlayer p) st' = handOf (otherPlayer p) st
  /\ deck st' = deck st
  /\ discardPile st' = discardPile st ++ [card]
  /\ top (discardPile st') = Some card
  /\ turn st' = otherPlayer p
  /\ currentSuit st' = chosen
  /\ status st' = status st /\ winner st' = winner st.
Proof.
  intros Hnd Hin st'.
  assert (Hhand : handOf p st' = filter (fun c => id c <> id card) (handOf p st)).
  { subst st'. unfold handOf, playCard. cbn. by destruct (bool_decide (p = player)). }
  pose proof (filter_id_Permutation (handOf p st) card Hnd Hin) as Hp.
  rewrite Hhand. split; [done|]. split.
  { apply Permutation_length in Hp. rewrite length_app in Hp. simpl in Hp. lia. }
  split.
  { intros [Hne _]%list_elem_of_filter. by apply Hne. }
  subst st'. unfold handOf, playCard, otherPlayer. cbn. rewrite top_snoc.
  destruct p; cbn; repeat split; done.
Qed.

(** X8. [playCard] does not look whether the card is in the hand: for a
    card whose identity no card of the hand has, the hand stays as it is and
    the discard pile still receives the card, so that the zones hold one
    card more than before. *)
Theorem playCard_unknown_card (card : Card) (p : Player) (chosen : option Suit)
    (st : GameState) :
  Forall (fun x => id x <> id card) (handOf p st) ->
  let st' := playCard card p chosen st in
  playerHand st' = playerHand st
  /\ aiHand st' = aiHand st
  /\ discardPile st' = discardPile st ++ [card]
  /\ length (zones st') = S (length (zones st)).
Proof.
  intros Hall st'.
  assert (Hf : filter (fun c => id c <> id card) (handOf p st) = handOf p st).
  { induction (handOf p st) as [|x l IH]; [done|].
    apply Forall_cons in Hall as [Hx Hall]. rewrite filter_cons_True by done.
    f_equal. auto. }
  subst st'. unfold handOf in Hf. unfold playCard, zones. cbn.
  destruct (bool_decide (p = player)); rewrite Hf; repeat split;
    rewrite !length_app; simpl; lia.
Qed.

Lemma handlePlayerPlay_changes (card : Card) (app : App) :
  handlePlayerPlay card app <> app <->
  turn (state app) = player /\ status (state app) = playing
  /\ exists t, top (discardPile (state app)) = Some t
              /\ canPlay (Some card) (Some t) (currentSuit (state app)) = true.
Proof.
  destruct app as [st pending]. unfold handlePlayerPlay. cbn [state pendingEightCard].
  destruct (decide (turn st = player)) as [Ht|Ht];
    [rewrite (bool_decide_eq_true_2 _ Ht)|rewrite (bool_decide_eq_false_2 _ Ht); cbn; tauto].
  destruct (decide (status st = playing)) as [Hs|Hs];
    [rewrite (bool_decide_eq_true_2 _ Hs)|rewrite (bool_decide_eq_false_2 _ Hs); cbn; tauto].
  cbn [negb orb].
  destruct (top (discardPile st)) as [t|]; [|split; [done|by intros (_ & _ & t & [=] & _)]].
  destruct (canPlay (Some card) (Some t) (currentSuit st)) eqn:Hc; cbn [negb].
  - split; [eauto 6|]. intros _.
    destruct (bool_decide (rank card = R8)); intros Heq.
    + apply (f_equal (fun a => status (state a))) in Heq. cbn in Heq. congruence.
    + apply (f_equal (fun a => turn (state a))) in Heq. cbn in Heq.
      rewrite bool_decide_eq_true_2 in Heq by done. congruence.
  - split; [done|]. intros (_ & _ & t' & [= <-] & Hc'). congruence.
Qed.

(** X9. [handlePlayerPlay] changes the component exactly when it is the
    player's turn, the status is [playing], the discard pile has a top card
    and [canPlay] accepts the card on it; in every other case the component
    stays as it is. *)
Theorem handlePlayerPlay_accepts (card : Card) (app : App) :
  (handlePlayerPlay card app <> app <->
   turn (state app) = player /\ status (state app) = playing
   /\ exists t, top (discardPile (state app)) = Some t
               /\ canPlay (Some card) (Some t) (currentSuit (state app)) = true)
  /\ (turn (state app) <> player \/ status (state app) <> playing
      \/ discardPile (state app) = []
      \/ canPlay (Some card) (top (discardPile (state app))) (currentSuit (state app)) = false ->
      handlePlayerPlay card app = app).
Proof.
  split; [apply handlePlayerPlay_changes|].
  intros H. unfold handlePlayerPlay.
  destruct (negb (bool_decide (turn (state app) = player)) || _) eqn:Hguard; [done|].
  apply orb_false_iff in Hguard as [Ht Hs].
  apply negb_false_iff, bool_decide_eq_true in Ht, Hs.
  destruct H as [H|[H|[H|H]]]; [done|done| |].
  - by rewrite H.
  - destruct (top (discardPile (state app))) as [t|]; [|done]. by rewrite H.
Qed.

(** X10. A card other than an 8 that [handlePlayerPlay] accepts is played
    at once: it becomes the top discard card, the cards with its identity
    leave the player's hand, the suit override is cleared, the turn goes to
    the automated player, and the status stays [playing]. *)
Theorem human_plain_play (card t : Card) (app : App) :
  turn (state app) = player -> status (state app) = playing ->
  top (discardPile (state app)) = Some t ->
  canPlay (Some card) (Some t) (currentSuit (state app)) = true ->
  rank card <> R8 ->
  let app' := handlePlayerPlay card app in
  state app' = playCard card player None (state app)
  /\ pendingEightCard app' = pendingEightCard app
  /\ playerHand (state app') = filter (fun c => id c <> id card) (playerHand (state app))
  /\ top (discardPile (state app')) = Some card
  /\ currentSuit (state app') = None
  /\ turn (state app') = ai
  /\ status (state app') = playing.
Proof.
  intros Ht Hs Htop Hc Hr app'.
  assert (H : app' = {| state := playCard card player None (state app);
                        pendingEightCard := pendingEightCard app |}).
  { subst app'. unfold handlePlayerPlay. rewrite Ht, Hs, Htop, Hc.
    rewrite !bool_decide_eq_true_2 by done. cbn [negb orb].
    by rewrite bool_decide_eq_false_2. }
  rewrite H. cbn. rewrite top_snoc. by rewrite Hs.
Qed.

Lemma filter_id_twice (hand : list Card) (c : Card) :
  filter (fun x => id x <> id c) (filter (fun x => id x <> id c) hand)
  = filter (fun x => id x <> id c) hand.
Proof.
  induction hand as [|x hand IH]; [done|].
  rewrite (filter_cons _ x). destruct (decide (id x <> id c)) as [Hx|Hx]; [|done].
  rewrite filter_cons_True by done. by rewrite IH.
Qed.

(** X11. A suit button clicked twice plays the card twice.  The handler
    of a suit button reads the pending card of its render: run a second
    time, on the component as the first run has left it, it puts the card
    on the discard pile again, so that the four zones hold one card more,
    and the suit chosen last is the override.  Only the handler of the
    next render, which finds nothing pending, does nothing. *)
Theorem suit_choice_twice (c : Card) (s1 s2 : Suit) (app : App) :
  let app1 := suitButton (Some c) s1 app in
  let app2 := suitButton (Some c) s2 app1 in
  discardPile (state app2) = discardPile (state app) ++ [c; c]
  /\ playerHand (state app2) = playerHand (state app1)
  /\ length (zones (state app2)) = S (length (zones (state app1)))
  /\ currentSuit (state app2) = Some s2
  /\ status (state app2) = playing
  /\ suitButton (pendingEightCard app1) s2 app1 = app1
  /\ handleSuitSelect s2 app1 = app1.
Proof.
  cbv zeta. unfold zones. cbn.
  rewrite !bool_decide_eq_true_2 by done. rewrite filter_id_twice.
  repeat split.
  - by rewrite <- app_assoc.
  - rewrite !length_app. cbn. lia.
Qed.

(** ** More on the reshuffle *)

(** What a call of [reshuffleIfNeeded] comes to: nothing, or a reshuffle. *)
Lemma reshuffleIfNeeded_cases (st : GameState) (g : Rng) :
  ((2 < length (deck st) \/ length (discardPile st) <= 1)
   /\ reshuffleIfNeeded st g = (st, g))
  \/ (length (deck st) <= 2 /\ 1 < length (discardPile st)
      /\ length (discardPile (fst (reshuffleIfNeeded st g))) = 1
      /\ length (deck (fst (reshuffleIfNeeded st g)))
         = length (deck st) + length (discardPile st) - 1).
Proof.
  unfold reshuffleIfNeeded.
  destruct (Nat.ltb_spec 2 (length (deck st))) as [H1|H1]; [left; split; [lia|done]|].
  destruct (Nat.leb_spec (length (discardPile st)) 1) as [H2|H2]; [left; split; [lia|done]|].
  right. cbn [orb].
  destruct (nonempty_snoc (discardPile st)) as (rest & topCard & Hd).
  { intros Hnil. rewrite Hnil in H2. simpl in H2. lia. }
  rewrite Hd, top_snoc, slice_0_m1_snoc. unfold bind, ret.
  pose proof (shuffle_Permutation (deck st ++ rest) g) as Hp.
  destruct (shuffle (deck st ++ rest) g) as [newDeck g']. cbn in *.
  repeat split; [done|by rewrite <- Hd|].
  apply Permutation_length in Hp. rewrite Hp, !length_app. simpl. lia.
Qed.

(** X12. [reshuffleIfNeeded] is idempotent: called again right after
    itself it returns the state as it is and calls [Math.random()] no
    more. *)
Theorem reshuffle_idempotent (st : GameState) (g g' : Rng) :
  reshuffleIfNeeded (fst (reshuffleIfNeeded st g)) g' = (fst (reshuffleIfNeeded st g), g').
Proof.
  destruct (reshuffleIfNeeded_cases st g) as [[H Heq]|(_ & _ & Hd & _)].
  - rewrite Heq. cbn [fst].
    destruct (reshuffleIfNeeded_cases st g') as [[_ Heq']|(H1 & H2 & _)]; [done|lia].
  - destruct (reshuffleIfNeeded_cases (fst (reshuffleIfNeeded st g)) g')
      as [[_ Heq']|(_ & H2 & _)]; [done|lia].
Qed.

(** X13. [reshuffleIfNeeded] keeps the number of cards in the two piles,
    and it never leaves the draw pile empty while the discard pile holds
    more than one card.  The same holds after [drawCard] and after the
    automated turn, which end with it. *)
Theorem reshuffle_refills (st : GameState) (g : Rng) :
  let st1 := fst (reshuffleIfNeeded st g) in
  length (deck st1) + length (discardPile st1) = length (deck st) + length (discardPile st)
  /\ (deck st1 = [] -> length (discardPile st1) <= 1)
  /\ (forall p, deck (fst (drawCard p st g)) = [] ->
                length (discardPile (fst (drawCard p st g))) <= 1)
  /\ (status st = playing -> turn st = ai ->
      deck (fst (aiTurn st g)) = [] -> length (discardPile (fst (aiTurn st g))) <= 1).
Proof.
  assert (Hgen : forall s, deck (fst (reshuffleIfNeeded s g)) = [] ->
                           length (discardPile (fst (reshuffleIfNeeded s g))) <= 1).
  { intros s Hs.
    destruct (reshuffleIfNeeded_cases s g) as [[H Heq]|(H1 & H2 & Hd & Hl)].
    - rewrite Heq in *. cbn [fst] in *. rewrite Hs in H. simpl in H. lia.
    - lia. }
  split; [|split; [apply Hgen|split]].
  - destruct (reshuffleIfNeeded_cases st g) as [[H Heq]|(H1 & H2 & Hd & Hl)].
    + by rewrite Heq.
    + lia.
  - intros p. apply Hgen.
  - intros Hs Ht. unfold aiTurn. rewrite Hs, Ht.
    rewrite !bool_decide_eq_true_2 by done. apply Hgen.
Qed.

(** X14. A draw from an empty draw pile moves no card to a hand and does
    not change the turn: [drawCard] then comes to [reshuffleIfNeeded]
    alone, which refills the draw pile when the discard pile holds more
    than one card. *)
Theorem draw_from_empty_pile (p : Player) (st : GameState) (g : Rng) :
  deck st = [] ->
  drawCard p st g = reshuffleIfNeeded st g
  /\ playerHand (fst (drawCard p st g)) = playerHand st
  /\ aiHand (fst (drawCard p st g)) = aiHand st
  /\ turn (fst (drawCard p st g)) = turn st
  /\ (length (discardPile st) <= 1 -> drawCard p st g = (st, g)).
Proof.
  intros Hd.
  assert (Hupd : drawCard_update p st = st).
  { unfold drawCard_update. by rewrite Hd. }
  unfold drawCard. rewrite Hupd.
  destruct (reshuffle_frame st g) as (Hph & Hah & Ht & _).
  repeat split; try done.
  intros Hlen.
  destruct (reshuffleIfNeeded_cases st g) as [[_ Heq]|(_ & H2 & _)]; [done|lia].
Qed.

(** ** More on the automated turn *)


Lemma cardToPlayOf_Some (playable : list Card) :
  playable <> [] -> exists c, cardToPlayOf playable = Some c.
Proof.
  intros Hne. unfold cardToPlayOf.
  destruct (find _ playable) as [x|]; [eauto|].
  destruct playable as [|y l]; [done|]. by exists y.
Qed.

(** The three things the automated player does on its turn: play a
    legal card of its hand, draw, or pass. *)
Lemma aiTurn_update_cases (st : GameState) (t : Card) :
  status st = playing -> turn st = ai -> top (discardPile st) = Some t ->
  let st' := aiTurn_update st in
  (exists c, c ∈ aiHand st /\ legal t (currentSuit st) c
             /\ deck st' = deck st
             /\ aiHand st' = filter (fun x => id x <> id c) (aiHand st)
             /\ discardPile st' = discardPile st ++ [c]
             /\ (currentSuit st' = None \/ rank c = R8)
             /\ turn st' = player)
  \/ (playableCards (aiHand st) t (currentSuit st) = []
      /\ exists newDeck drawn,
           deck st = newDeck ++ [drawn]
           /\ deck st' = newDeck
           /\ aiHand st' = aiHand st ++ [drawn]
           /\ discardPile st' = discardPile st
           /\ currentSuit st' = currentSuit st
           /\ turn st' = (if canPlay (Some drawn) (Some t) (currentSuit st) then ai else player))
  \/ (playableCards (aiHand st) t (currentSuit st) = []
      /\ deck st = []
      /\ deck st' = [] /\ aiHand st' = aiHand st /\ discardPile st' = discardPile st
      /\ currentSuit st' = currentSuit st /\ turn st' = player).
Proof.
  intros Hs Ht Htop st'.
  destruct (playableCards (aiHand st) t (currentSuit st)) as [|x l] eqn:Hplay.
  - right. destruct (decide (deck st = [])) as [Hd|Hd].
    + right. subst st'. unfold aiTurn_update. rewrite Hs, Ht, Htop, Hplay, Hd.
      rewrite !bool_decide_eq_true_2 by done. cbn. done.
    + left. split; [done|].
      destruct (nonempty_snoc (deck st) Hd) as (newDeck & drawn & Hdeck).
      exists newDeck, drawn. subst st'. unfold aiTurn_update.
      rewrite Hs, Ht, Htop, Hplay, Hdeck, pop_snoc, length_app.
      rewrite !bool_decide_eq_true_2 by done. cbn [negb orb length Nat.ltb Nat.leb].
      rewrite Nat.add_1_r. cbn. done.
  - left.
    destruct (cardToPlayOf_Some (x :: l)) as [c Hc]; [done|].
    rewrite <- Hplay in Hc.
    pose proof (cardToPlayOf_elem _ _ Hc) as Hin.
    unfold playableCards in Hin. apply list_elem_of_filter in Hin as [Hleg Hin].
    destruct (aiTurn_update_play st t c Hs Ht Htop Hc) as (H1 & _ & H3 & H4 & H5 & H6 & _).
    exists c. repeat split; try done.
    destruct (decide (rank c = R8)) as [H8|H8]; [by right|left].
    by rewrite bool_decide_eq_false_2 in H5.
Qed.

(** X15. On its turn the automated player plays only a card of its own
    hand that [canPlay] accepts, draws only when it holds no such card, and
    passes only when it holds none and the draw pile is empty.  A
    card that is not an 8 clears the suit override. *)
Theorem ai_plays_only_legal (st : GameState) (t : Card) :
  status st = playing -> turn st = ai -> top (discardPile st) = Some t ->
  let st' := aiTurn_update st in
  let candidates := playableCards (aiHand st) t (currentSuit st) in
  (candidates <> [] ->
   exists c, c ∈ aiHand st
             /\ canPlay (Some c) (Some t) (currentSuit st) = true
             /\ discardPile st' = discardPile st ++ [c]
             /\ deck st' = deck st
             /\ (rank c <> R8 -> currentSuit st' = None)
             /\ turn st' = player)
  /\ (candidates = [] -> deck st <> [] ->
      discardPile st' = discardPile st
      /\ S (length (deck st')) = length (deck st)
      /\ length (aiHand st') = S (length (aiHand st)))
  /\ (candidates = [] -> deck st = [] ->
      discardPile st' = discardPile st /\ aiHand st' = aiHand st /\ turn st' = player).
Proof.
  intros Hs Ht Htop st' candidates.
  destruct (aiTurn_update_cases st t Hs Ht Htop)
    as [(c & Hin & Hleg & Hd & Hh & Hdp & Hcs & Htn)
       |[(Hnone & newDeck & drawn & Hdeck & Hd & Hh & Hdp & Hcs & Htn)
        |(Hnone & Hdeck & Hd & Hh & Hdp & Hcs & Htn)]]; subst st' candidates.
  - assert (Hne : playableCards (aiHand st) t (currentSuit st) <> []).
    { intros Hnil. unfold playableCards in Hnil.
      exact (filter_nil_not_elem_of _ _ c Hnil Hleg Hin). }
    split; [|split; [by intros Hnil|by intros Hnil]].
    intros _. exists c. repeat split; try done.
    intros Hr. by destruct Hcs.
  - split; [done|]. split.
    + intros _ _. repeat split; [done| |].
      * rewrite Hd, Hdeck, length_app. simpl. lia.
      * rewrite Hh, length_app. simpl. lia.
    + intros _ Hnil. rewrite Hnil in Hdeck. by destruct newDeck.
  - split; [done|]. split; [done|]. by intros _ _.
Qed.

(** X16. The automated turn does nothing at all, and calls
    [Math.random()] not once, when the status is not [playing], when it is
    not the automated player's turn, or when the discard pile is empty. *)
Theorem aiTurn_inert (st : GameState) (g : Rng) :
  status st <> playing \/ turn st <> ai \/ discardPile st = [] ->
  aiTurn st g = (st, g).
Proof.
  intros H. unfold aiTurn.
  destruct (decide (status st = playing)) as [Hs|Hs];
    [|by rewrite (bool_decide_eq_false_2 _ Hs)].
  destruct (decide (turn st = ai)) as [Ht|Ht];
    [|by rewrite (bool_decide_eq_false_2 _ Ht), andb_false_r].
  destruct H as [H|[H|H]]; [done|done|].
  rewrite !bool_decide_eq_true_2 by done. cbn [andb].
  assert (Hupd : aiTurn_update st = st).
  { unfold aiTurn_update. rewrite H. cbn [top last].
    by destruct (_ || _). }
  rewrite Hupd.
  destruct (reshuffleIfNeeded_cases st g) as [[_ Heq]|(_ & H2 & _)]; [done|].
  rewrite H in H2. simpl in H2. lia.
Qed.

(** X17. The automated player's turn is over after two runs of its timer
    at most: the turn stays with it only after it has drawn a card that can
    be played, and on the next run it plays a card. *)
Theorem ai_turn_ends (st : GameState) (g g' : Rng) :
  status st = playing -> turn st = ai -> discardPile st <> [] ->
  let st1 := fst (aiTurn st g) in
  turn st1 = player \/ turn (fst (aiTurn st1 g')) = player.
Proof.
  intros Hs Ht Hd st1.
  destruct (nonempty_snoc (discardPile st) Hd) as (rest & t & Hdp).
  assert (Htop : top (discardPile st) = Some t) by (rewrite Hdp; apply top_snoc).
  assert (Hst1 : st1 = fst (reshuffleIfNeeded (aiTurn_update st) g)).
  { subst st1. unfold aiTurn. rewrite Hs, Ht. by rewrite !bool_decide_eq_true_2. }
  destruct (reshuffle_frame (aiTurn_update st) g) as (_ & Hah & Htn & Hst & Hcs & _ & Htp).
  rewrite <- Hst1 in Hah, Htn, Hst, Hcs, Htp.
  destruct (aiTurn_update_cases st t Hs Ht Htop)
    as [(c & _ & _ & _ & _ & _ & _ & Hturn)
       |[(Hnone & newDeck & drawn & Hdeck & _ & Hh & Hdp' & Hcs' & Hturn)
        |(_ & _ & _ & _ & _ & _ & Hturn)]].
  - left. by rewrite Htn.
  - destruct (canPlay (Some drawn) (Some t) (currentSuit st)) eqn:Hplay;
      [|left; by rewrite Htn].
    right.
    assert (Hs1 : status st1 = playing) by (by rewrite Hst, aiTurn_update_status).
    assert (Ht1 : turn st1 = ai) by (by rewrite Htn).
    assert (Htop1 : top (discardPile st1) = Some t) by (by rewrite Htp, Hdp').
    assert (Hin : drawn ∈ playableCards (aiHand st1) t (currentSuit st1)).
    { unfold playableCards. apply list_elem_of_filter. split.
      - by rewrite Hcs, Hcs'.
      - rewrite Hah, Hh. apply elem_of_app. right. by left. }
    unfold aiTurn. rewrite Hs1, Ht1. rewrite !bool_decide_eq_true_2 by done. cbn [andb].
    destruct (reshuffle_frame (aiTurn_update st1) g') as (_ & _ & Htn2 & _).
    rewrite Htn2.
    destruct (aiTurn_update_cases st1 t Hs1 Ht1 Htop1)
      as [(c & _ & _ & _ & _ & _ & _ & Hturn2)
         |[(Hnone2 & _)|(Hnone2 & _)]]; [done| |];
      rewrite Hnone2 in Hin; by apply elem_of_nil in Hin.
  - left. by rewrite Htn.
Qed.

(** ** What every run keeps true of the table *)

Lemma tableOk_same (st st' : GameState) :
  top (discardPile st') = top (discardPile st) -> currentSuit st' = currentSuit st ->
  tableOk st -> tableOk st'.
Proof. intros Ht Hc [H1 H2]. unfold tableOk. by rewrite Ht, Hc. Qed.

Lemma tableOk_playCard (card : Card) (p : Player) (chosen : option Suit) (st : GameState) :
  chosen = None \/ rank card = R8 -> tableOk (playCard card p chosen st).
Proof.
  intros H. unfold tableOk, playCard. cbn. rewrite top_snoc. split; [eauto|].
  intros s Hs. exists card. split; [done|]. destruct H as [->|H]; done.
Qed.

Lemma drawCard_update_frame (p : Player) (st : GameState) :
  discardPile (drawCard_update p st) = discardPile st
  /\ currentSuit (drawCard_update p st) = currentSuit st
  /\ winner (drawCard_update p st) = winner st.
Proof.
  unfold drawCard_update. destruct (_ =? _); [done|].
  by destruct (pop (deck st)) as [[drawn|] newDeck].
Qed.

Lemma tableOk_reshuffle (st : GameState) (g : Rng) :
  tableOk st -> tableOk (fst (reshuffleIfNeeded st g)).
Proof.
  destruct (reshuffle_frame st g) as (_ & _ & _ & _ & Hcs & _ & Htop).
  by apply tableOk_same.
Qed.

Lemma tableOk_aiTurn_update (st : GameState) :
  tableOk st -> tableOk (aiTurn_update st).
Proof.
  intros Hok.
  destruct (decide (status st = playing)) as [Hs|Hs].
  2: { unfold aiTurn_update. by rewrite (bool_decide_eq_false_2 _ Hs). }
  destruct (decide (turn st = ai)) as [Ht|Ht].
  2: { unfold aiTurn_update. by rewrite (bool_decide_eq_false_2 _ Ht), orb_true_r. }
  destruct Hok as [[t Htop] H8].
  destruct (aiTurn_update_cases st t Hs Ht Htop)
    as [(c & _ & _ & _ & _ & Hdp & Hcs & _)
       |[(_ & newDeck & drawn & _ & _ & _ & Hdp & Hcs & _)
        |(_ & _ & _ & _ & Hdp & Hcs & _)]].
  - unfold tableOk. rewrite Hdp, top_snoc. split; [eauto|].
    intros s Hsome. exists c. split; [done|]. destruct Hcs as [Hn|H]; [congruence|done].
  - apply (tableOk_same st); [by rewrite Hdp|done|]. by split; [exists t|].
  - apply (tableOk_same st); [by rewrite Hdp|done|]. by split; [exists t|].
Qed.

Lemma initGame_table (g : Rng) :
  let st := fst (initGame g) in
  (exists c, discardPile st = [c]) /\ currentSuit st = None /\ status st = playing
  /\ winner st = None /\ turn st = player.
Proof.
  destruct initGame_deal with (g := g) as (fullDeck & g' & _ & _ & Hlen & ->).
  cbn [fst]. assert (H16 : 16 < length fullDeck) by lia.
  destruct (deal_spec fullDeck H16) as (_ & _ & _ & _ & Hrest & Ht & Hs & Hc & Hw).
  repeat split; try done.
  destruct Hrest as [(before & c & after & _ & _ & _ & Hd & _)|(_ & c & after & _ & Hd & _)];
    by exists c.
Qed.

Lemma initGame_soundApp (g : Rng) (pending : option Card) :
  soundApp {| state := fst (initGame g); pendingEightCard := pending |}.
Proof.
  destruct (initGame_table g) as ([c Hd] & Hcs & Hs & Hw & Ht).
  unfold soundApp, tableOk. cbn [state pendingEightCard].
  rewrite Hd, Hcs, Hs. repeat split; try done; eauto.
Qed.

(** Outside of the choice of a suit and of the end of the game the
    component is sound as soon as the table is. *)
Lemma soundApp_other (st' : GameState) (pending : option Card) :
  tableOk st' -> status st' <> suit_selection -> status st' <> game_over ->
  soundApp {| state := st'; pendingEightCard := pending |}.
Proof.
  intros Hok H1 H2. unfold soundApp. cbn [state pendingEightCard].
  split; [exact Hok|]. split; intros H; congruence.
Qed.

Lemma handlePlayerPlay_soundApp (card : Card) (app : App) :
  soundApp app -> card ∈ playerHand (state app) -> soundApp (handlePlayerPlay card app).
Proof.
  intros Hsound Hin. pose proof Hsound as (Hok & Hsel & Hover).
  unfold handlePlayerPlay.
  destruct (negb (bool_decide (turn (state app) = player)) || _) eqn:Hguard; [done|].
  apply orb_false_iff in Hguard as [Ht Hs].
  apply negb_false_iff, bool_decide_eq_true in Ht, Hs.
  destruct (top (discardPile (state app))) as [t|]; [|done].
  destruct (negb (canPlay _ _ _)); [done|].
  destruct (bool_decide (rank card = R8)) eqn:H8.
  - apply bool_decide_eq_true in H8.
    unfold soundApp. cbn [state pendingEightCard with_status status turn winner playerHand].
    split; [exact Hok|]. split; [|done]. intros _. split; [done|]. by exists card.
  - apply soundApp_other.
    + apply tableOk_playCard. by left.
    + cbn. rewrite Hs. discriminate.
    + cbn. rewrite Hs. discriminate.
Qed.

(** A suit button that plays an 8 leaves the table as it should be, in
    whatever status it is clicked. *)
Lemma suitButton_soundApp (rendered : option Card) (s : Suit) (app : App) :
  soundApp app -> (forall c, rendered = Some c -> rank c = R8) ->
  soundApp (suitButton rendered s app).
Proof.
  intros Hsound H8. destruct rendered as [c|]; [|done].
  unfold suitButton. apply soundApp_other.
  - apply (tableOk_playCard c player (Some s)). right. by apply H8.
  - discriminate.
  - discriminate.
Qed.

Lemma checkWinner_soundApp (app : App) :
  soundApp app ->
  soundApp {| state := checkWinner (state app); pendingEightCard := pendingEightCard app |}.
Proof.
  intros Hsound. pose proof Hsound as (Hok & Hsel & Hover).
  unfold checkWinner.
  destruct (bool_decide (status (state app) = playing)) eqn:Hs; [|by destruct app].
  destruct (playerHand (state app)) as [|x l] eqn:Hp; cbn [length Nat.eqb].
  - unfold soundApp. cbn. split; [exact Hok|].
    split; [discriminate|]. intros _. by left.
  - destruct (aiHand (state app)) as [|y l'] eqn:Ha; cbn [length Nat.eqb]; [|by destruct app].
    unfold soundApp. cbn. split; [exact Hok|].
    split; [discriminate|]. intros _. by right.
Qed.

Lemma dispatch_soundApp (e : Event) (app : App) (g : Rng) :
  soundApp app ->
  (forall c s, e = ClickSuit (Some c) s -> rank c = R8) ->
  soundApp (fst (dispatch e app g)).
Proof.
  intros Hsound H8. pose proof Hsound as (Hok & Hsel & Hover).
  destruct e; cbn [dispatch].
  - destruct (playerHand (state app) !! i) as [card|] eqn:Hi; [|done].
    apply handlePlayerPlay_soundApp; [done|]. by eapply list_elem_of_lookup_2.
  - unfold clickDeck.
    destruct (_ && bool_decide (status (state app) = playing)) eqn:Hg; [|done].
    apply andb_true_iff in Hg as [_ Hs%bool_decide_eq_true].
    unfold bind, ret, drawCard.
    destruct (drawCard_update_frame player (state app)) as (Hd & Hc & Hw).
    destruct (reshuffle_frame (drawCard_update player (state app)) g)
      as (_ & _ & _ & Hst & _ & Hw' & _).
    pose proof (tableOk_reshuffle (drawCard_update player (state app)) g) as Hr.
    destruct (reshuffleIfNeeded _ g) as [st g']. cbn [fst] in *.
    rewrite drawCard_update_status, Hs in Hst.
    apply soundApp_other; [|rewrite Hst; discriminate..].
    apply Hr. apply (tableOk_same (state app)); [by rewrite Hd|done|done].
  - apply suitButton_soundApp; [done|].
    intros c ->. by apply (H8 c s).
  - unfold on_state, bind, ret, aiTurn.
    destruct (bool_decide (status (state app) = playing) && _) eqn:Hg; [|by destruct app].
    apply andb_true_iff in Hg as [Hs%bool_decide_eq_true _].
    destruct (reshuffle_frame (aiTurn_update (state app)) g)
      as (_ & _ & _ & Hst & _ & Hw' & _).
    pose proof (tableOk_reshuffle (aiTurn_update (state app)) g) as Hr.
    destruct (reshuffleIfNeeded _ g) as [st g']. cbn [fst] in *.
    rewrite aiTurn_update_status, Hs in Hst.
    apply soundApp_other; [|rewrite Hst; discriminate..].
    by apply Hr, tableOk_aiTurn_update.
  - by apply checkWinner_soundApp.
  - destruct (bool_decide _); [|done].
    unfold on_state, bind, ret.
    pose proof (initGame_soundApp g (pendingEightCard app)) as Hi.
    destruct (initGame g) as [st g']. exact Hi.
  - destruct (_ && _); [done|]. by apply soundApp_other.
  - by apply soundApp_other.
  - unfold on_state, bind, ret.
    pose proof (initGame_soundApp g (pendingEightCard app)) as Hi.
    destruct (initGame g) as [st g']. exact Hi.
  - done.
Qed.

Lemma step_sound (e : Event) (ui : App * ModalSlot) (g : Rng) :
  sound ui -> sound (fst (step e ui g)).
Proof.
  intros [Happ Hmod].
  destruct (mounted e (snd ui)) eqn:Hmt; [|by rewrite step_unmounted].
  rewrite step_mounted by done. cbn [fst snd].
  assert (Happ' : soundApp (fst (dispatch e (fst ui) g))).
  { apply dispatch_soundApp; [done|]. intros c s ->.
    apply Hmod. by apply mounted_suitModal in Hmt. }
  split; [exact Happ'|].
  intros c. cbn [fst snd].
  destruct (decide (status (state (fst (dispatch e (fst ui) g))) = suit_selection)) as [Hs|Hs].
  - rewrite render_suitModal by done.
    destruct Happ' as (_ & Hsel & _). destruct (Hsel Hs) as (_ & c' & Hc' & H8 & _).
    rewrite Hc'. by intros [= <-].
  - intros Hc%render_suitModal_other; [|done].
    destruct e; by apply Hmod.
Qed.

Lemma run_from_sound (es : list Event) (ui : App * ModalSlot) (g : Rng) :
  sound ui -> sound (fst (run_from es ui g)).
Proof. apply run_from_keeps. apply step_sound. Qed.

Lemma initGame_sound (g : Rng) (pending : option Card) :
  let start := {| state := fst (initGame g); pendingEightCard := pending |} in
  sound (start, render start noModal).
Proof.
  intros start. split; cbn [fst snd].
  - apply initGame_soundApp.
  - intros c Hc%render_suitModal_other; [discriminate|].
    subst start. cbn [state]. rewrite initGame_status. discriminate.
Qed.

(** What a run from a dealt game reaches is sound. *)
Lemma run_sound (g g' : Rng) (pending : option Card) (es : list Event) :
  soundApp (fst (run es {| state := fst (initGame g); pendingEightCard := pending |} g')).
Proof.
  rewrite run_run_from. apply run_from_sound. apply initGame_sound.
Qed.

(** X18. From a dealt game on, whatever the events, the discard pile is
    never empty, so that the top card read by the render, by
    [handlePlayerPlay], by [drawCard] and by the automated turn is always
    there. *)
Theorem discard_never_empty (g g' : Rng) (pending : option Card) (es : list Event) :
  let start := {| state := fst (initGame g); pendingEightCard := pending |} in
  let st := state (fst (run es start g')) in
  discardPile st <> []
  /\ exists t, top (discardPile st) = Some t /\ topCardOf st = Some t.
Proof.
  intros start st.
  pose proof (run_sound g g' pending es) as ([[t Ht] _] & _).
  fold start in Ht. fold st in Ht. split.
  - intros Hnil. by rewrite Hnil in Ht.
  - exists t. split; [done|]. unfold topCardOf.
    destruct (discardPile st); [done|]. done.
Qed.

(** X19. From a dealt game on, whatever the events, a suit override is
    in force only while the top discard card is an 8. *)
Theorem override_over_eight (g g' : Rng) (pending : option Card) (es : list Event)
    (s : Suit) :
  let start := {| state := fst (initGame g); pendingEightCard := pending |} in
  let st := state (fst (run es start g')) in
  currentSuit st = Some s ->
  exists t, top (discardPile st) = Some t /\ rank t = R8.
Proof.
  intros start st.
  pose proof (run_sound g g' pending es) as ([_ H8] & _).
  apply H8.
Qed.

Lemma override_over_eight_witness :
  currentSuit (state (fst (run ex_run_override ex_start g0))) = Some hearts
  /\ exists t, top (discardPile (state (fst (run ex_run_override ex_start g0)))) = Some t
               /\ rank t = R8.
Proof.
  assert (H : currentSuit (state (fst (run ex_run_override ex_start g0))) = Some hearts)
    by (vm_compute; reflexivity).
  split; [exact H|].
  exact (override_over_eight g0 g0 None ex_run_override hearts H).
Defined.

(** X20. From a dealt game on, whatever the events, while the status is
    [suit_selection] it is the player's turn and the pending card is an 8
    that is still in the player's hand. *)
Theorem suit_selection_state (g g' : Rng) (pending : option Card) (es : list Event) :
  let start := {| state := fst (initGame g); pendingEightCard := pending |} in
  let app := fst (run es start g') in
  status (state app) = suit_selection ->
  turn (state app) = player
  /\ exists c, pendingEightCard app = Some c /\ rank c = R8 /\ c ∈ playerHand (state app).
Proof.
  intros start app Hs.
  pose proof (run_sound g g' pending es) as (_ & Hsel & _).
  by apply Hsel.
Qed.

Lemma suit_selection_state_witness :
  status (state (fst (run ex_run_select ex_start g0))) = suit_selection
  /\ turn (state (fst (run ex_run_select ex_start g0))) = player.
Proof.
  assert (H : status (state (fst (run ex_run_select ex_start g0))) = suit_selection)
    by (vm_compute; reflexivity).
  split; [exact H|].
  exact (proj1 (suit_selection_state g0 g0 None ex_run_select H)).
Defined.

(** ** The winner *)






(** ** Starting over *)

(** X22. The reset button once confirmed, the start button and the effect
    on the status [waiting], one after the other, deal a new game from any
    state, as does the button of the final screen when the game is over.
    The pending 8 is not cleared by it.  A reset that is not confirmed
    changes nothing while the status is [playing]. *)
Theorem restart_deals_anew (app : App) (g : Rng) :
  run [ClickReset true; ClickStart; WaitingEffect] app g
  = ({| state := fst (initGame g); pendingEightCard := pendingEightCard app |},
     snd (initGame g))
  /\ (status (state app) = game_over ->
      dispatch ClickPlayAgain app g
      = ({| state := fst (initGame g); pendingEightCard := pendingEightCard app |},
         snd (initGame g)))
  /\ (status (state app) = playing -> dispatch (ClickReset false) app g = (app, g))
  /\ (status (state app) <> playing ->
      forall b, fst (dispatch (ClickReset b) app g)
                = {| state := with_status menu (state app);
                     pendingEightCard := pendingEightCard app |}).
Proof.
  split; [|split; [|split]].
  - unfold run, bind, ret. cbn [run_from]. unfold bind, ret, step.
    cbn [mounted snd fst dispatch negb]. rewrite andb_false_r.
    unfold on_state, bind, ret. cbn -[initGame].
    rewrite ?bool_decide_eq_true_2 by done. cbn -[initGame].
    rewrite ?bool_decide_eq_true_2 by done.
    by destruct (initGame g).
  - intros Hs. cbn [dispatch].
    unfold on_state, bind, ret. by destruct (initGame g).
  - intros Hs. cbn [dispatch]. rewrite Hs. by rewrite bool_decide_eq_true_2.
  - intros Hs b. cbn [dispatch]. by rewrite (bool_decide_eq_false_2 _ Hs).
Qed.

(** ** The cards offered to the player *)

(** X23. The cards of the hand that are shown as playable are the cards
    that [handlePlayerPlay] accepts, as long as the discard pile is not
    empty; with an empty discard pile they would all be shown as playable
    on the player's turn and all be refused.  A click on a card that is not
    shown as playable never reaches the handler, and the handler would have
    refused it: the click through [PlayingCard] is the click of
    [dispatch]. *)
Theorem highlight_matches_handler (app : App) (g : Rng) :
  (discardPile (state app) <> [] ->
   forall card, isPlayable card (state app) = true <-> handlePlayerPlay card app <> app)
  /\ (discardPile (state app) = [] ->
      forall card,
        handlePlayerPlay card app = app
        /\ (turn (state app) = player -> status (state app) = playing ->
            isPlayable card (state app) = true))
  /\ (forall i, dispatch (ClickCard i) app g = (clickHandCard i app, g)).
Proof.
  assert (Hcases : forall card,
    isPlayable card (state app) = false -> handlePlayerPlay card app = app).
  { intros card Hp. unfold isPlayable, topCardOf in Hp. unfold handlePlayerPlay.
    destruct (bool_decide (turn (state app) = player)); [|done].
    destruct (bool_decide (status (state app) = playing)); [|done].
    cbn [andb negb orb] in *.
    destruct (discardPile (state app)) as [|x l] eqn:Hd; [done|].
    cbn [length Nat.ltb Nat.leb] in Hp.
    destruct (top (x :: l)) as [t|]; [|done]. by rewrite Hp. }
  split; [|split].
  - intros Hd card. rewrite handlePlayerPlay_changes.
    unfold isPlayable, topCardOf.
    destruct (discardPile (state app)) as [|x l] eqn:Hdp; [done|].
    cbn [length Nat.ltb Nat.leb]. rewrite !andb_true_iff, !bool_decide_eq_true.
    split.
    + intros [[Ht Hs] Hc]. repeat split; try done.
      destruct (top (x :: l)) as [t|] eqn:Htop; [eauto|].
      by apply last_None in Htop.
    + intros (Ht & Hs & t & Htop & Hc). rewrite Htop. done.
  - intros Hd card. split.
    + unfold handlePlayerPlay. rewrite Hd. cbn [top last]. by destruct (_ || _).
    + intros Ht Hs. unfold isPlayable, topCardOf. rewrite Hd, Ht, Hs. cbn.
      rewrite !bool_decide_eq_true_2 by done. unfold canPlay.
      by destruct (bool_decide (rank card = R8)).
  - intros i. cbn [dispatch]. unfold clickHandCard, PlayingCard_click, ret.
    destruct (playerHand (state app) !! i) as [card|]; [|done]. cbn [negb].
    destruct (isPlayable card (state app)) eqn:Hp; [done|]. by rewrite Hcases.
Qed.

(** ** Events that change nothing *)

(** X24. Outside of play nothing can be played: unless the status is
    [playing], a click on a card or on the draw pile, the automated turn
    and the winner check leave the component as it is and call
    [Math.random()] not once.  The suit buttons test no status: the
    handler of a render with no card pending does nothing, and the handler
    of a render with a card pending plays that card in whatever status it
    is clicked, and sets the status to [playing]. *)
Theorem inert_outside_play (app : App) (g : Rng) :
  (status (state app) <> playing ->
   (forall i, dispatch (ClickCard i) app g = (app, g))
   /\ dispatch ClickDeck app g = (app, g)
   /\ dispatch AiTimer app g = (app, g)
   /\ dispatch WinnerEffect app g = (app, g))
  /\ (forall s, dispatch (ClickSuit None s) app g = (app, g))
  /\ (forall c s,
        let app' := fst (dispatch (ClickSuit (Some c) s) app g) in
        status (state app') = playing
        /\ discardPile (state app') = discardPile (state app) ++ [c]
        /\ currentSuit (state app') = Some s
        /\ turn (state app') = ai
        /\ pendingEightCard app' = None).
Proof.
  destruct app as [st pending]. cbn [state]. split; [|split].
  - intros Hs. repeat split.
    + intros i. cbn [dispatch state]. destruct (playerHand st !! i) as [card|]; [|done].
      unfold handlePlayerPlay. cbn [state].
      by rewrite (bool_decide_eq_false_2 _ Hs), orb_true_r.
    + cbn [dispatch]. unfold clickDeck. cbn [state].
      by rewrite (bool_decide_eq_false_2 _ Hs), andb_false_r.
    + cbn [dispatch]. unfold on_state, aiTurn, bind, ret. cbn [state pendingEightCard].
      by rewrite (bool_decide_eq_false_2 _ Hs).
    + cbn [dispatch]. unfold on_state, checkWinner, bind, ret. cbn [state pendingEightCard].
      by rewrite (bool_decide_eq_false_2 _ Hs).
  - done.
  - intros c s. cbn. by rewrite bool_decide_eq_true_2.
Qed.

(** X25. The winner check changes the state exactly when the status is
    [playing] and a hand is empty.  It changes the status, the winner and
    the message only, and a second check right after it changes nothing. *)
Theorem checkWinner_changes (st : GameState) :
  (checkWinner st <> st <->
   status st = playing /\ (playerHand st = [] \/ aiHand st = []))
  /\ checkWinner (checkWinner st) = checkWinner st
  /\ zones (checkWinner st) = zones st
  /\ turn (checkWinner st) = turn st
  /\ currentSuit (checkWinner st) = currentSuit st.
Proof.
  assert (Hz : zones (checkWinner st) = zones st) by apply checkWinner_zones.
  split; [|split; [|split; [done|]]].
  - unfold checkWinner.
    destruct (decide (status st = playing)) as [Hs|Hs].
    2: { rewrite (bool_decide_eq_false_2 _ Hs). split; [done|]. by intros (? & _). }
    rewrite (bool_decide_eq_true_2 _ Hs).
    destruct (playerHand st) as [|x l]; cbn [length Nat.eqb].
    { split; [intros _; split; [done|by left]|].
      intros _ Heq. apply (f_equal status) in Heq. cbn in Heq. congruence. }
    destruct (aiHand st) as [|y l']; cbn [length Nat.eqb].
    { split; [intros _; split; [done|by right]|].
      intros _ Heq. apply (f_equal status) in Heq. cbn in Heq. congruence. }
    split; [done|]. by intros (_ & [?|?]).
  - unfold checkWinner.
    destruct (bool_decide (status st = playing)) eqn:Hs; [|by rewrite Hs].
    destruct (length (playerHand st) =? 0) eqn:Hp; [done|].
    destruct (length (aiHand st) =? 0) eqn:Ha; [done|].
    by rewrite Hs, Hp, Ha.
  - unfold checkWinner.
    destruct (bool_decide (status st = playing)); [|done].
    destruct (length (playerHand st) =? 0); [done|].
    by destruct (length (aiHand st) =? 0).
Qed.

(** ** The further statements at concrete inputs *)

Lemma shuffle_reaches_every_order_witness :
  (N.of_nat (length [mkCard RA hearts; mkCard R2 hearts; mkCard R3 hearts]) <= 2 ^ 26)%N
  /\ [mkCard R3 hearts; mkCard RA hearts; mkCard R2 hearts]
    ≡ₚ [mkCard RA hearts; mkCard R2 hearts; mkCard R3 hearts]
  /\ exists g,
       fst (shuffle [mkCard RA hearts; mkCard R2 hearts; mkCard R3 hearts] g)
       = [mkCard R3 hearts; mkCard RA hearts; mkCard R2 hearts].
Proof.
  assert (H : [mkCard R3 hearts; mkCard RA hearts; mkCard R2 hearts]
                ≡ₚ [mkCard RA hearts; mkCard R2 hearts; mkCard R3 hearts])
    by exact (Permutation_cons_append [mkCard RA hearts; mkCard R2 hearts] (mkCard R3 hearts)).
  assert (Hlen : (N.of_nat (length [mkCard RA hearts; mkCard R2 hearts; mkCard R3 hearts])
                  <= 2 ^ 26)%N) by (cbn; lia).
  split; [exact Hlen|]. split; [exact H|].
  exact (shuffle_reaches_every_order _ _ Hlen H).
Defined.

Lemma playCard_from_hand_witness :
  NoDup (id <$> handOf player (state ex_wild))
  /\ mkCard R5 clubs ∈ handOf player (state ex_wild)
  /\ S (length (handOf player (playCard (mkCard R5 clubs) player None (state ex_wild))))
     = length (handOf player (state ex_wild)).
Proof.
  assert (H1 : NoDup (id <$> handOf player (state ex_wild))) by compute_done.
  assert (H2 : mkCard R5 clubs ∈ handOf player (state ex_wild)) by compute_done.
  split; [exact H1|]. split; [exact H2|].
  exact (proj1 (proj2 (playCard_from_hand (mkCard R5 clubs) player None (state ex_wild) H1 H2))).
Defined.

Lemma playCard_unknown_card_witness :
  Forall (fun x => id x <> id (mkCard RK spades)) (handOf player (state ex_wild))
  /\ length (zones (playCard (mkCard RK spades) player None (state ex_wild)))
     = S (length (zones (state ex_wild))).
Proof.
  assert (H : Forall (fun x => id x <> id (mkCard RK spades)) (handOf player (state ex_wild)))
    by compute_done.
  split; [exact H|].
  exact (proj2 (proj2 (proj2
    (playCard_unknown_card (mkCard RK spades) player None (state ex_wild) H)))).
Defined.

Lemma human_plain_play_witness :
  canPlay (Some (mkCard R5 clubs)) (Some (mkCard R8 diamonds)) (currentSuit (state ex_wild)) = true
  /\ rank (mkCard R5 clubs) <> R8
  /\ state (handlePlayerPlay (mkCard R5 clubs) ex_wild)
     = playCard (mkCard R5 clubs) player None (state ex_wild).
Proof.
  assert (H : rank (mkCard R5 clubs) <> R8) by discriminate.
  split; [reflexivity|]. split; [exact H|].
  exact (proj1 (human_plain_play (mkCard R5 clubs) (mkCard R8 diamonds) ex_wild
                  eq_refl eq_refl eq_refl eq_refl H)).
Defined.

Lemma draw_from_empty_pile_witness :
  deck ex_ai_empty = []
  /\ drawCard player ex_ai_empty g0 = reshuffleIfNeeded ex_ai_empty g0.
Proof.
  split; [reflexivity|].
  exact (proj1 (draw_from_empty_pile player ex_ai_empty g0 eq_refl)).
Defined.

Lemma ai_plays_only_legal_witness :
  playableCards (aiHand ex_ai_fives) (mkCard R5 spades) (currentSuit ex_ai_fives) <> []
  /\ exists c, c ∈ aiHand ex_ai_fives
       /\ canPlay (Some c) (Some (mkCard R5 spades)) (currentSuit ex_ai_fives) = true
       /\ discardPile (aiTurn_update ex_ai_fives) = discardPile ex_ai_fives ++ [c]
       /\ deck (aiTurn_update ex_ai_fives) = deck ex_ai_fives
       /\ (rank c <> R8 -> currentSuit (aiTurn_update ex_ai_fives) = None)
       /\ turn (aiTurn_update ex_ai_fives) = player.
Proof.
  assert (H : playableCards (aiHand ex_ai_fives) (mkCard R5 spades) (currentSuit ex_ai_fives)
              <> []) by (vm_compute; discriminate).
  split; [exact H|].
  exact (proj1 (ai_plays_only_legal ex_ai_fives (mkCard R5 spades) eq_refl eq_refl eq_refl) H).
Defined.

Lemma aiTurn_inert_witness :
  turn (state ex_wild) <> ai
  /\ aiTurn (state ex_wild) g0 = (state ex_wild, g0).
Proof.
  assert (H : turn (state ex_wild) <> ai) by discriminate.
  split; [exact H|].
  exact (aiTurn_inert (state ex_wild) g0 (or_intror (or_introl H))).
Defined.

Lemma ai_turn_ends_witness :
  discardPile ex_ai_empty <> []
  /\ (turn (fst (aiTurn ex_ai_empty g0)) = player
      \/ turn (fst (aiTurn (fst (aiTurn ex_ai_empty g0)) g0)) = player).
Proof.
  assert (H : discardPile ex_ai_empty <> []) by discriminate.
  split; [exact H|].
  exact (ai_turn_ends ex_ai_empty g0 g0 eq_refl eq_refl H).
Defined.
